(** * Character chat system: persistence, prompt assembly and history

    A shallow embedding of [Main.py] and [Main2.py], the two variants of the
    persona chat application, and the properties of its conversation
    pipeline: character creation, prompt assembly, the call to the
    generation endpoint, and the history queries.

    The database is a pair of tables held as lists in insertion order; the
    ambient effects of a chat call (the identifier generator, the clock and
    the HTTP endpoint) are gathered in a [World] record whose answers are
    inputs of the call, and what the call did to them is returned as a list
    of [effect]s.  Storage faults (a failing query or commit) are outside
    the model. *)

From Stdlib Require Import ZArith NArith String Ascii List Bool Lia.
From Stdlib Require Import Sorting.Sorted Sorting.Permutation.
From stdpp Require Import base list strings pretty.

Local Open Scope Z_scope.
Set Warnings "-register-all".

(** ** Python values, exceptions and the operations the code applies *)

(** What [response.json()] returns: the Python image of a JSON document.
    A [JObj] holds the items of the decoded dict, keys pairwise distinct;
    strings are sequences of bytes. *)
Inductive jvalue : Type :=
  | JNull
  | JBool (b : bool)
  | JInt (z : Z)
  | JFloat (literal : string)
  | JStr (s : string)
  | JArr (items : list jvalue)
  | JObj (members : list (string * jvalue)).

(** The exceptions the modelled statements can raise; each carries the text
    that [str(e)] renders. *)
Inductive exn : Type :=
  | KeyError (repr : string)
  | IndexError (msg : string)
  | TypeError (msg : string)
  | JSONDecodeError (msg : string)
  | RequestException (msg : string).

Definition str_exn (e : exn) : string :=
  match e with
  | KeyError m | IndexError m | TypeError m
  | JSONDecodeError m | RequestException m => m
  end.

(** A computation that returns or raises. *)
Inductive result (A : Type) : Type :=
  | Ok (a : A)
  | Raise (e : exn).
Arguments Ok {A} a.
Arguments Raise {A} e.

(** Sequencing, written [x ← m; k]: a raised exception skips what follows. *)
#[export] Instance result_bind : MBind result :=
  fun A B (k : A -> result B) (m : result A) =>
    match m with
    | Ok a => k a
    | Raise e => Raise e
    end.

Definition type_name (v : jvalue) : string :=
  match v with
  | JNull => "NoneType"
  | JBool _ => "bool"
  | JInt _ => "int"
  | JFloat _ => "float"
  | JStr _ => "str"
  | JArr _ => "list"
  | JObj _ => "dict"
  end.

Fixpoint is_substring (needle hay : string) : bool :=
  String.prefix needle hay ||
  match hay with
  | EmptyString => false
  | String _ rest => is_substring needle rest
  end.

Fixpoint assoc (k : string) (members : list (string * jvalue)) : option jvalue :=
  match members with
  | [] => None
  | (k', v) :: rest => if String.eqb k' k then Some v else assoc k rest
  end.

(** [k in v] for a string [k]. *)
Definition py_contains (k : string) (v : jvalue) : result bool :=
  match v with
  | JObj members => Ok (match assoc k members with Some _ => true | None => false end)
  | JArr items =>
      Ok (existsb (fun x => match x with JStr s => String.eqb s k | _ => false end)
                  items)
  | JStr s => Ok (is_substring k s)
  | _ => Raise (TypeError ("argument of type '" +:+ type_name v +:+ "' is not iterable"))
  end.

(** [v[k]] for a string [k]. *)
Definition py_getitem (v : jvalue) (k : string) : result jvalue :=
  match v with
  | JObj members =>
      match assoc k members with
      | Some x => Ok x
      | None => Raise (KeyError ("'" +:+ k +:+ "'"))
      end
  | JArr _ => Raise (TypeError "list indices must be integers or slices, not str")
  | JStr _ => Raise (TypeError "string indices must be integers, not 'str'")
  | _ => Raise (TypeError ("'" +:+ type_name v +:+ "' object is not subscriptable"))
  end.

(** [v[0]]. *)
Definition py_getitem0 (v : jvalue) : result jvalue :=
  match v with
  | JArr (x :: _) => Ok x
  | JArr [] => Raise (IndexError "list index out of range")
  | JStr (String c _) => Ok (JStr (String c EmptyString))
  | JStr EmptyString => Raise (IndexError "string index out of range")
  | JObj _ => Raise (KeyError "0")
  | _ => Raise (TypeError ("'" +:+ type_name v +:+ "' object is not subscriptable"))
  end.

(** [len(v)]. *)
Definition py_len (v : jvalue) : result Z :=
  match v with
  | JArr items => Ok (Z.of_nat (length items))
  | JStr s => Ok (Z.of_nat (String.length s))
  | JObj members => Ok (Z.of_nat (length members))
  | _ => Raise (TypeError ("object of type '" +:+ type_name v +:+ "' has no len()"))
  end.

(** The line feed, [\n]. *)
Definition LF : string := String "010"%char EmptyString.

(** [sep.join(parts)]. *)
Fixpoint str_join (sep : string) (parts : list string) : string :=
  match parts with
  | [] => ""
  | [p] => p
  | p :: rest => p +:+ sep +:+ str_join sep rest
  end.

(** How an f-string renders a nullable text column. *)
Definition fmt_opt (o : option string) : string :=
  match o with
  | Some s => s
  | None => "None"
  end.

(** [not chat_id]: [None] and the empty string are falsy. *)
Definition falsy (o : option string) : bool :=
  match o with
  | None => true
  | Some s => bool_decide (s = "")
  end.

(** ** Timestamps *)

(** A [datetime.datetime] value, compared field by field. *)
Record datetime : Type := {
  year : N; month : N; day : N;
  hour : N; minute : N; second : N; microsecond : N
}.

Definition dt_fields (d : datetime) : list N :=
  [year d; month d; day d; hour d; minute d; second d; microsecond d].

Fixpoint lex_leb (a b : list N) : bool :=
  match a, b with
  | [], _ => true
  | _ :: _, [] => false
  | x :: a', y :: b' =>
      if (x <? y)%N then true
      else if (y <? x)%N then false
      else lex_leb a' b'
  end.

Definition dt_leb (a b : datetime) : bool := lex_leb (dt_fields a) (dt_fields b).

Definition dt_min (a b : datetime) : datetime := if dt_leb a b then a else b.

Fixpoint zeros (n : nat) : string :=
  match n with
  | O => ""
  | S n' => String "0" (zeros n')
  end.

Definition zfill (width : nat) (n : N) : string :=
  let s := pretty n in zeros (width - String.length s) +:+ s.

(** [d.strftime("%Y-%m-%d %H:%M:%S")], the year on four digits. *)
Definition strftime (d : datetime) : string :=
  zfill 4 (year d) +:+ "-" +:+ zfill 2 (month d) +:+ "-" +:+ zfill 2 (day d)
  +:+ " " +:+ zfill 2 (hour d) +:+ ":" +:+ zfill 2 (minute d) +:+ ":"
  +:+ zfill 2 (second d).

(** ** The database *)

(** A row of the [character] table ([class Character]). *)
Module Character.
Record t : Type := {
  id : Z;
  name : string;
  description : string;
  prompt_template : string
}.
End Character.

(** A row of the [conversation] table ([class Conversation]); [user_input]
    and [chat_id] are the nullable columns, [user_id] is the integer the
    caller identifies itself with. *)
Module Conversation.
Record t : Type := {
  id : Z;
  character_id : Z;
  user_input : option string;
  bot_response : string;
  timestamp : datetime;
  chat_id : option string;
  user_id : Z
}.
End Conversation.

Record DB : Type := {
  characters : list Character.t;
  conversations : list Conversation.t
}.

Definition empty_db : DB := {| characters := []; conversations := [] |}.

(** The integer primary key given to a new row: one more than the largest
    key in the table. *)
Definition next_id (ids : list Z) : Z := 1 + foldr Z.max 0 ids.

(** [ORDER BY] a key: a stable insertion sort, rows with equal keys staying
    in table order. *)
Section OrderBy.
Context {A : Type} (leb : A -> A -> bool).

Fixpoint insert_by (x : A) (l : list A) : list A :=
  match l with
  | [] => [x]
  | y :: rest => if leb x y then x :: y :: rest else y :: insert_by x rest
  end.

Fixpoint order_by (l : list A) : list A :=
  match l with
  | [] => []
  | x :: rest => insert_by x (order_by rest)
  end.
End OrderBy.

Definition by_timestamp (a b : Conversation.t) : bool :=
  dt_leb (Conversation.timestamp a) (Conversation.timestamp b).

(** [Character.query.filter_by(name=n).first()]. *)
Definition character_by_name (db : DB) (n : string) : option Character.t :=
  head (filter (fun c => Character.name c = n) (characters db)).

(** [Character.query.get(i)]. *)
Definition character_get (db : DB) (i : Z) : option Character.t :=
  head (filter (fun c => Character.id c = i) (characters db)).

(** [Conversation.query.filter_by(chat_id=cid).order_by(Conversation.timestamp).all()]. *)
Definition conversations_by_chat (db : DB) (cid : string) : list Conversation.t :=
  order_by by_timestamp
    (filter (fun c => Conversation.chat_id c = Some cid) (conversations db)).

(** [Conversation.query.filter_by(user_id=uid).order_by(Conversation.timestamp).all()]. *)
Definition conversations_by_user (db : DB) (uid : Z) : list Conversation.t :=
  order_by by_timestamp
    (filter (fun c => Conversation.user_id c = uid) (conversations db)).

(** [db.session.add(Character(...)); db.session.commit()]. *)
Definition insert_character (db : DB) (n d p : string) : DB :=
  {| characters :=
       characters db ++
       [ {| Character.id := next_id (map Character.id (characters db));
            Character.name := n;
            Character.description := d;
            Character.prompt_template := p |} ];
     conversations := conversations db |}.

(** [db.session.add(Conversation(...)); db.session.commit()], the timestamp
    column taking its default, the clock's reading.  The user's id is stored
    as given: a commit that fails because the id is outside the 64-bit range
    of the column ([in_int64] below) is not described. *)
Definition insert_conversation (db : DB) (now : datetime) (character : Character.t)
    (user_input bot_response chat_id : string) (user_id : Z) : DB :=
  {| characters := characters db;
     conversations :=
       conversations db ++
       [ {| Conversation.id := next_id (map Conversation.id (conversations db));
            Conversation.character_id := Character.id character;
            Conversation.user_input := Some user_input;
            Conversation.bot_response := bot_response;
            Conversation.timestamp := now;
            Conversation.chat_id := Some chat_id;
            Conversation.user_id := user_id |} ] |}.

(** ** Character creation (identical in both files) *)

Definition predefined_characters : list (string * string * string) :=
  [ ("Chuck the Clown",
     "A funny clown who tells jokes and entertains.",
     "You are Chuck the Clown, always ready with a joke and entertainment. Be upbeat, silly, and include jokes in your responses.");
    ("Sarcastic Pirate",
     "A pirate with a sharp tongue and a love for treasure.",
     "You are a Sarcastic Pirate, ready to share your tales of adventure. Use pirate slang, be witty, sarcastic, and mention your love for treasure and the sea.");
    ("Professor Sage",
     "A wise professor knowledgeable about many subjects.",
     "You are Professor Sage, sharing wisdom and knowledge. Be scholarly, thoughtful, and provide educational information in your responses.") ].

(** [add_predefined_characters]: each listed character is added unless its
    name is already stored (the session flushes pending rows before each
    query, so an earlier addition is seen by a later check). *)
Definition add_predefined_characters (db : DB) : DB :=
  foldl (fun acc '(n, d, p) =>
           match character_by_name acc n with
           | Some _ => acc
           | None => insert_character acc n d p
           end)
        db predefined_characters.

(** [add_character(name, description, prompt_template)]: the message shown
    to the administrator and the database afterwards. *)
Definition add_character (db : DB) (name description prompt_template : string)
    : string * DB :=
  match character_by_name db name with
  | Some _ => ("Character '" +:+ name +:+ "' already exists!", db)
  | None =>
      ("Character '" +:+ name +:+ "' added successfully!" +:+ LF
       +:+ "Description: " +:+ description,
       insert_character db name description prompt_template)
  end.

(** [get_existing_characters()]. *)
Definition get_existing_characters (db : DB) : list (string * string) :=
  map (fun c => (Character.name c, Character.description c)) (characters db).

(** ** The generation endpoint *)

(** The [requests.Response] as the code reads it: [json] is what the
    [.json()] method returns or raises. *)
Module Response.
Record t : Type := {
  status_code : Z;
  text : string;
  json : result jvalue
}.
End Response.

(** What one chat call gets from its surroundings: the identifier
    [str(uuid.uuid4())] would produce, the reading of [datetime.utcnow],
    and the endpoint's reaction to a posted payload. *)
Record World : Type := {
  uuid4 : string;
  utcnow : datetime;
  requests_post : jvalue -> result Response.t
}.

(** What a call did to its surroundings. *)
Inductive effect : Type :=
  | Uuid4 (value : string)
  | HttpPost (body : jvalue).

(** The request body, [{"contents": [{"parts": [{"text": full_prompt}]}]}]. *)
Definition payload (full_prompt : string) : jvalue :=
  JObj [("contents", JArr [JObj [("parts", JArr [JObj [("text", JStr full_prompt)]])]])].

(** What the response handling yields before anything is stored: the value
    read at [candidates[0].content.parts[0].text], or the message returned
    in its place. *)
Inductive generated : Type :=
  | Candidate (bot_response : jvalue)
  | ErrorText (message : string).

(** The statements from the [requests.post] call to the extraction of
    [bot_response] (Main.py 144-174, Main2.py 148-175), with the exceptions
    they can raise.  The status branch evaluates [response.json()] for its
    log line before building the message. *)
Definition generate (posted : result Response.t) : result generated :=
  response ← posted;
  if Response.status_code response =? 200 then
    response_data ← Response.json response;
    has ← py_contains "candidates" response_data;
    nonempty ← (if has : bool
                then candidates ← py_getitem response_data "candidates";
                     n ← py_len candidates;
                     Ok (0 <? n)
                else Ok false);
    if nonempty : bool then
      candidates ← py_getitem response_data "candidates";
      first ← py_getitem0 candidates;
      content ← py_getitem first "content";
      parts ← py_getitem content "parts";
      part ← py_getitem0 parts;
      bot_response ← py_getitem part "text";
      Ok (Candidate bot_response)
    else
      Ok (ErrorText "An error occurred while generating content: Unexpected response format.")
  else
    _ ← Response.json response;
    Ok (ErrorText ("An error occurred while generating content: "
                   +:+ pretty (Response.status_code response) +:+ " - "
                   +:+ Response.text response)).

(** The pair a chat call returns, the database it leaves and what it did. *)
Record Outcome : Type := {
  reply : string;
  session : option string;
  db_after : DB;
  effects : list effect
}.

(** The chat identifier in force after [if not chat_id: chat_id = str(uuid.uuid4())],
    and the effect of that statement. *)
Definition resolve_chat_id (w : World) (chat_id : option string) : string * list effect :=
  if falsy chat_id then (uuid4 w, [Uuid4 (uuid4 w)]) else (default "" chat_id, []).

(** The part of [chat_with_character] after the prompt is built, shared by
    the two files.  A [text] that is present but is not a string is bound
    by the database driver in a way this model does not describe: [None]. *)
Definition converse (w : World) (db : DB) (character : Character.t)
    (user_input : string) (user_id : Z) (chat_id : string)
    (before : list effect) (full_prompt : string) : option Outcome :=
  let done_ := before ++ [HttpPost (payload full_prompt)] in
  match generate (requests_post w (payload full_prompt)) with
  | Ok (Candidate (JStr bot_response)) =>
      Some {| reply := bot_response;
              session := Some chat_id;
              db_after := insert_conversation db (utcnow w) character user_input
                            bot_response chat_id user_id;
              effects := done_ |}
  | Ok (Candidate _) => None
  | Ok (ErrorText message) =>
      Some {| reply := message; session := Some chat_id;
              db_after := db; effects := done_ |}
  | Raise e =>
      Some {| reply := "An unexpected error occurred: " +:+ str_exn e;
              session := Some chat_id; db_after := db; effects := done_ |}
  end.

Definition character_not_found (db : DB) : Outcome :=
  {| reply := "Character not found."; session := None;
     db_after := db; effects := [] |}.

(** What a handler of the interface hands to its output components, the
    database it leaves and what it did. *)
Record Handled (A : Type) : Type := {
  outputs : A;
  db_then : DB;
  did : list effect
}.
Arguments outputs {A} _.
Arguments db_then {A} _.
Arguments did {A} _.


(** ** Main.py: chat without memory, history by chat, chat list *)

Module Main.

(** Line 132. *)
Definition full_prompt (prompt_template user_input : string) : string :=
  prompt_template +:+ LF +:+ "User: " +:+ user_input +:+ LF +:+ "Bot:".

(** [chat_with_character(character_name, user_input, user_id, chat_id=None)]. *)
Definition chat_with_character (w : World) (db : DB)
    (character_name user_input : string) (user_id : Z)
    (chat_id : option string) : option Outcome :=
  match character_by_name db character_name with
  | None => Some (character_not_found db)
  | Some character =>
      let '(chat_id, before) := resolve_chat_id w chat_id in
      converse w db character user_input user_id chat_id before
        (full_prompt (Character.prompt_template character) user_input)
  end.

(** One turn of the transcript (lines 197-200). *)
Definition render_turn (conv : Conversation.t) : string :=
  "[" +:+ strftime (Conversation.timestamp conv) +:+ "]" +:+ LF
  +:+ "User: " +:+ fmt_opt (Conversation.user_input conv) +:+ LF
  +:+ "Bot: " +:+ Conversation.bot_response conv +:+ LF +:+ LF.

(** The turns of a transcript, one after the other. *)
Definition transcript (turns : list Conversation.t) : string :=
  foldr (fun conv rest => render_turn conv +:+ rest) "" turns.

(** The transcript's first line (lines 191-194). *)
Definition history_header (db : DB) (first : Conversation.t) (chat_id : string)
    : string :=
  let character_name :=
    match character_get db (Conversation.character_id first) with
    | Some character => Character.name character
    | None => "Unknown Character"
    end in
  "Chat History with " +:+ character_name +:+ " (ID: " +:+ chat_id +:+ "):" +:+ LF +:+ LF.

(** [get_chat_history(chat_id)]. *)
Definition get_chat_history (db : DB) (chat_id : option string) : string :=
  if falsy chat_id then "No chat ID provided."
  else
    let chat_id := default "" chat_id in
    match conversations_by_chat db chat_id with
    | [] => "No chat history found for this ID."
    | first :: rest =>
        foldl (fun history conv => history +:+ render_turn conv)
              (history_header db first chat_id) (first :: rest)
    end.

(** A row of the grouped query of [get_all_chat_ids]. *)
Record summary : Type := {
  chat_id : string;
  character_name : string;
  start_time : datetime;
  message_count : Z
}.

(** The rows the query aggregates: [conversation JOIN character ON
    character_id = character.id WHERE chat_id IS NOT NULL], as
    (chat_id, character name, timestamp). *)
Definition joined_rows (db : DB) : list (string * string * datetime) :=
  conv ← conversations db;
  character ← filter (fun c => Character.id c = Conversation.character_id conv)
                     (characters db);
  match Conversation.chat_id conv with
  | Some cid => [(cid, Character.name character, Conversation.timestamp conv)]
  | None => []
  end.

(** One step of [GROUP BY chat_id, character.name] with [min(timestamp)]
    and [count(id)]: the row joins its group, or opens one. *)
Fixpoint upsert (row : string * string * datetime) (groups : list summary)
    : list summary :=
  let '(cid, cname, ts) := row in
  match groups with
  | [] => [ {| chat_id := cid; character_name := cname;
               start_time := ts; message_count := 1 |} ]
  | g :: rest =>
      if bool_decide (chat_id g = cid /\ character_name g = cname)
      then {| chat_id := cid; character_name := cname;
              start_time := dt_min (start_time g) ts;
              message_count := message_count g + 1 |} :: rest
      else g :: upsert row rest
  end.

Definition group_by (rows : list (string * string * datetime)) : list summary :=
  foldl (fun groups row => upsert row groups) [] rows.

Definition newest_first (a b : summary) : bool :=
  dt_leb (start_time b) (start_time a).

(** The query of lines 211-224, [ORDER BY min(timestamp) DESC].  The query
    leaves open in which order rows with equal start times come; here they
    come in the order in which their chats first appear in the table. *)
Definition chat_query (db : DB) : list summary :=
  order_by newest_first (group_by (joined_rows db)).

(** [get_all_chat_ids()]: each row as [chat_id, character, start, count]. *)
Definition get_all_chat_ids (db : DB) : list (string * string * string * Z) :=
  map (fun chat => (chat_id chat, character_name chat,
                    strftime (start_time chat), message_count chat))
      (chat_query db).

(** [handle_chat(character_name, message, user_id, chat_id)] of the chat tab
    (lines 372-377); the outputs are the response, the chat id kept as state
    and the chat id displayed. *)
Definition handle_chat (w : World) (db : DB) (character_name : option string)
    (message : string) (user_id : Z) (chat_id : option string)
    : option (Handled (string * option string * option string)) :=
  if falsy character_name then
    Some {| outputs := ("Please select a character first.", chat_id, chat_id);
            db_then := db; did := [] |}
  else
    o ← chat_with_character w db (default "" character_name) message user_id chat_id;
    Some {| outputs := (reply o, session o, session o);
            db_then := db_after o; did := effects o |}.

(** [start_new_chat()] (lines 379-381). *)
Definition start_new_chat (w : World) (db : DB) : Handled (string * string) :=
  {| outputs := (uuid4 w, uuid4 w); db_then := db; did := [Uuid4 (uuid4 w)] |}.

End Main.

(** ** Main2.py: chat with the user's stored turns as context *)

Module Main2.

(** Line 134: how one stored turn is rendered, and the context string. *)
Definition fragment (conv : Conversation.t) : string :=
  "User: " +:+ fmt_opt (Conversation.user_input conv) +:+ LF
  +:+ "Bot: " +:+ Conversation.bot_response conv.

Definition context_prompt (previous_conversations : list Conversation.t) : string :=
  str_join " " (map fragment previous_conversations).

(** Line 136. *)
Definition full_prompt (prompt_template : string)
    (previous_conversations : list Conversation.t) (user_input : string) : string :=
  prompt_template +:+ LF +:+ context_prompt previous_conversations +:+ LF
  +:+ "User: " +:+ user_input +:+ LF +:+ "Bot:".

(** [chat_with_character(character_name, user_input, user_id, chat_id=None)]. *)
Definition chat_with_character (w : World) (db : DB)
    (character_name user_input : string) (user_id : Z)
    (chat_id : option string) : option Outcome :=
  match character_by_name db character_name with
  | None => Some (character_not_found db)
  | Some character =>
      let '(chat_id, before) := resolve_chat_id w chat_id in
      let previous_conversations := conversations_by_user db user_id in
      converse w db character user_input user_id chat_id before
        (full_prompt (Character.prompt_template character)
                     previous_conversations user_input)
  end.

(** [get_chat_history(user_id)]. *)
Definition get_chat_history (db : DB) (user_id : Z) : list Conversation.t :=
  conversations_by_user db user_id.


(** What the speech recogniser does with an audio file: it returns a
    transcript, raises one of the two errors [speech_to_text] catches, or
    fails otherwise (an unreadable file). *)
Inductive heard : Type :=
  | Heard (text : string)
  | UnknownValueError
  | RequestError (msg : string)
  | ReadFault (e : exn).

(** The media front end of one call: the recogniser, and whether the audio
    track of a video can be written out. *)
Record Media : Type := {
  recognize_google : string -> heard;
  write_audiofile : string -> bool
}.

(** [speech_to_text(audio_file)] (lines 181-193). *)
Definition speech_to_text (m : Media) (audio_file : string) : result (option string) :=
  match recognize_google m audio_file with
  | Heard text => Ok (Some text)
  | UnknownValueError | RequestError _ => Ok None
  | ReadFault e => Raise e
  end.

(** [extract_audio_from_video(video_file)] (lines 195-204). *)
Definition extract_audio_from_video (m : Media) (video_file : string) : option string :=
  if write_audiofile m video_file then Some "temp_audio.wav" else None.

(** The last three statements of [handle_chat] (lines 334-337). *)
Definition send (w : World) (db : DB) (character_name user_input : string)
    (user_id : Z) (chat_messages : list (string * string))
    : option (Handled (list (string * string) * option string)) :=
  o ← chat_with_character w db character_name user_input user_id None;
  Some {| outputs := (chat_messages ++ [("User", user_input); ("Bot", reply o)],
                      session o);
          db_then := db_after o; did := effects o |}.

(** [handle_chat(character_name, user_input, audio_file, video_file, user_id,
    chat_messages)] of the chat tab (lines 316-337): the outputs are the
    message list and the chat id kept as state.  An exception of the
    recogniser leaves the handler. *)
Definition handle_chat (m : Media) (w : World) (db : DB)
    (character_name user_input : string) (audio_file video_file : option string)
    (user_id : Z) (chat_messages : list (string * string))
    : result (option (Handled (list (string * string) * option string))) :=
  spoken ← (if falsy audio_file then Ok (Some user_input)
            else speech_to_text m (default "" audio_file));
  match spoken with
  | None => Ok (Some {| outputs := (chat_messages, None); db_then := db; did := [] |})
  | Some user_input =>
      if falsy video_file then
        Ok (send w db character_name user_input user_id chat_messages)
      else
        match extract_audio_from_video m (default "" video_file) with
        | None =>
            Ok (Some {| outputs :=
                          (chat_messages ++
                           [("Bot", "Failed to extract audio from video. Please try a different file.")],
                           None);
                        db_then := db; did := [] |})
        | Some audio_file_path =>
            extracted_text ← speech_to_text m audio_file_path;
            let user_input :=
              if falsy extracted_text then user_input
              else user_input +:+ " " +:+ default "" extracted_text in
            Ok (send w db character_name user_input user_id
                  (chat_messages ++ [("User", "Video uploaded")]))
        end
  end.

End Main2.

(** ** The two variants side by side *)

Inductive variant : Type :=
  | WithoutMemory   (* Main.py *)
  | WithMemory.     (* Main2.py *)

Definition chat_with_character_in (v : variant) :
    World -> DB -> string -> string -> Z -> option string -> option Outcome :=
  match v with
  | WithoutMemory => Main.chat_with_character
  | WithMemory => Main2.chat_with_character
  end.


(** The prompt a variant assembles for a stored character. *)
Definition full_prompt_in (v : variant) (db : DB) (character : Character.t)
    (user_id : Z) (user_input : string) : string :=
  match v with
  | WithoutMemory => Main.full_prompt (Character.prompt_template character) user_input
  | WithMemory =>
      Main2.full_prompt (Character.prompt_template character)
        (conversations_by_user db user_id) user_input
  end.

(** ** Shapes of the endpoint's answer, for the statements below *)

(** The value at [candidates[0].content.parts[0].text] of a body made of
    objects and arrays all the way down, if there is one. *)
Definition first_candidate_text (body : jvalue) : option jvalue :=
  match body with
  | JObj members =>
      match assoc "candidates" members with
      | Some (JArr (JObj candidate :: _)) =>
          match assoc "content" candidate with
          | Some (JObj content) =>
              match assoc "parts" content with
              | Some (JArr (JObj part :: _)) => assoc "text" part
              | _ => None
              end
          | _ => None
          end
      | _ => None
      end
  | _ => None
  end.

(** The body is an object holding a non-empty array of candidates. *)
Definition has_candidates (body : jvalue) : bool :=
  match body with
  | JObj members =>
      match assoc "candidates" members with
      | Some (JArr (_ :: _)) => true
      | _ => false
      end
  | _ => false
  end.

(** The body is an object with no candidates member, or an empty array. *)
Definition no_candidates (body : jvalue) : bool :=
  match body with
  | JObj members =>
      match assoc "candidates" members with
      | None | Some (JArr []) => true
      | _ => false
      end
  | _ => false
  end.

(** The endpoint failed: the request raised, the status is outside 2xx, or
    the body does not decode to an object with candidates. *)
Definition generation_fails (posted : result Response.t) : Prop :=
  match posted with
  | Raise _ => True
  | Ok response =>
      ~ (200 <= Response.status_code response < 300) \/
      match Response.json response with
      | Ok body => has_candidates body = false
      | Raise _ => True
      end
  end.

Definition unexpected_format : string :=
  "An error occurred while generating content: Unexpected response format.".

Definition status_error (status_code : Z) (text : string) : string :=
  "An error occurred while generating content: " +:+ pretty status_code
  +:+ " - " +:+ text.

(** The three messages a chat call returns in place of a reply. *)
Definition is_error_text (message : string) : Prop :=
  message = unexpected_format \/
  (exists status_code text, message = status_error status_code text) \/
  (exists e, message = "An unexpected error occurred: " +:+ str_exn e).

(** ** Reachable databases *)

(** The databases the program can produce: from the empty one, through the
    creation of characters and through chat calls of either variant.  The
    generated identifiers are never empty (they are 36 characters long). *)
Inductive reachable : DB -> Prop :=
  | reach_empty : reachable empty_db
  | reach_predefined db :
      reachable db -> reachable (add_predefined_characters db)
  | reach_add db name description prompt_template :
      reachable db ->
      reachable (add_character db name description prompt_template).2
  | reach_chat v w db character_name user_input user_id chat_id o :
      reachable db ->
      uuid4 w <> "" ->
      chat_with_character_in v w db character_name user_input user_id chat_id = Some o ->
      reachable (db_after o).

(** ** Reading the chat list against the stored turns *)

(** The grouping key of a summary row. *)
Definition gkey (g : Main.summary) : string * string :=
  (Main.chat_id g, Main.character_name g).

(** A summary row agrees with the joined rows of its key: it counts them,
    and its start time is one of their timestamps and is no later than any
    of them. *)
Definition represents (g : Main.summary) (rows : list (string * string * datetime))
    : Prop :=
  let stamps := map snd (filter (fun r => r.1 = gkey g) rows) in
  Main.message_count g = Z.of_nat (length stamps)
  /\ Main.start_time g ∈ stamps
  /\ forall t, t ∈ stamps -> dt_leb (Main.start_time g) t = true.

(** The groups are exactly the groups of the rows: one per key. *)
Definition groups_ok (groups : list Main.summary)
    (rows : list (string * string * datetime)) : Prop :=
  NoDup (map gkey groups)
  /\ (forall g, g ∈ groups -> represents g rows)
  /\ (forall r, r ∈ rows -> r.1 ∈ map gkey groups).

(** The stored turns of a chat id whose character has the given name. *)
Definition turns_of (db : DB) (cid cname : string) : list Conversation.t :=
  filter (fun conv =>
            Conversation.chat_id conv = Some cid
            /\ Character.name <$> character_get db (Conversation.character_id conv)
               = Some cname)
         (conversations db).

(** The databases produced by character creation alone. *)
Inductive created : DB -> Prop :=
  | created_empty : created empty_db
  | created_predefined db :
      created db -> created (add_predefined_characters db)
  | created_add db name description prompt_template :
      created db ->
      created (add_character db name description prompt_template).2.

(** What every reachable database satisfies: character names and keys are
    pairwise distinct, every stored turn carries a non-empty chat id, and
    the character of every stored turn is stored. *)
Definition well_formed (db : DB) : Prop :=
  NoDup (map Character.name (characters db))
  /\ NoDup (map Character.id (characters db))
  /\ (forall conv, conv ∈ conversations db ->
        exists cid, Conversation.chat_id conv = Some cid /\ cid <> "")
  /\ (forall conv, conv ∈ conversations db ->
        is_Some (character_get db (Conversation.character_id conv))).

(** The values the integer column [user_id] takes: 64-bit signed integers.
    Binding an integer outside this range raises, in the query of Main2.py
    and in the commit of both files, so the statements about an answered
    call that is stored take the user's id in this range. *)
Definition in_int64 (z : Z) : Prop :=
  -9223372036854775808 <= z <= 9223372036854775807.

(** ** Sample data *)

Definition t0 : datetime :=
  {| year := 2024; month := 3; day := 9;
     hour := 7; minute := 5; second := 1; microsecond := 12 |}.

Definition t1 : datetime :=
  {| year := 2024; month := 3; day := 9;
     hour := 7; minute := 6; second := 30; microsecond := 0 |}.

(** A response body with one candidate carrying [text]. *)
Definition candidate_body (text : string) : jvalue :=
  JObj [("candidates",
         JArr [JObj [("content",
                      JObj [("parts", JArr [JObj [("text", JStr text)]])])]])].

(** A world whose endpoint answers every request with the given status and
    a one-candidate body. *)
Definition answering (status : Z) (text : string) (now : datetime) : World :=
  {| uuid4 := "3f2b8c1e-0000-4000-8000-000000000001";
     utcnow := now;
     requests_post := fun _ =>
       Ok {| Response.status_code := status;
             Response.text := "{...}";
             Response.json := Ok (candidate_body text) |} |}.

(** A response with status 201 whose body carries the candidate "Ahoy!". *)
Definition created_201 : Response.t :=
  {| Response.status_code := 201;
     Response.text := "{...}";
     Response.json := Ok (candidate_body "Ahoy!") |}.

(** A response with status 200 whose body has no candidates member. *)
Definition blocked_200 : Response.t :=
  {| Response.status_code := 200;
     Response.text := "{}";
     Response.json := Ok (JObj [("promptFeedback", JObj [])]) |}.

(** A store with the single character X. *)
Definition db_x : DB := (add_character empty_db "X" "d" "You are X.").2.

Definition db_after_chat (run : option Outcome) (otherwise : DB) : DB :=
  match run with
  | Some o => db_after o
  | None => otherwise
  end.

(** The store after user 1 said "a" to X in session "s" and was answered "b". *)
Definition db_ab : DB :=
  db_after_chat
    (Main2.chat_with_character (answering 200 "b" t0) db_x "X" "a" 1 (Some "s"))
    db_x.

(** The store after a further exchange ("c", "d") in the same session. *)
Definition db_abcd : DB :=
  db_after_chat
    (Main.chat_with_character (answering 200 "d" t1) db_ab "X" "c" 1 (Some "s"))
    db_ab.

(** The predefined characters, then user 1 greeting the pirate in session "s". *)
Definition db_pirate : DB :=
  db_after_chat
    (Main.chat_with_character (answering 200 "Ahoy!" t0)
       (add_predefined_characters empty_db) "Sarcastic Pirate" "hi" 1 (Some "s"))
    (add_predefined_characters empty_db).

(** The same session continued with another character. *)
Definition db_mixed : DB :=
  db_after_chat
    (Main.chat_with_character (answering 200 "Indeed." t1)
       db_pirate "Professor Sage" "why?" 1 (Some "s"))
    db_pirate.



(** A media front end that understands no recording and extracts no audio. *)
Definition deaf : Main2.Media :=
  {| Main2.recognize_google := fun _ => Main2.UnknownValueError;
     Main2.write_audiofile := fun _ => false |}.

(** A world like [answering], with another identifier to hand out. *)
Definition answering_next (status : Z) (text : string) (now : datetime) : World :=
  {| uuid4 := "3f2b8c1e-0000-4000-8000-000000000004";
     utcnow := now;
     requests_post := requests_post (answering status text now) |}.

(** * Properties *)

(** ** Strings *)

Lemma app_cons (ch : ascii) (a b : string) :
  String ch a +:+ b = String ch (a +:+ b).
Proof. reflexivity. Qed.

Lemma app_assoc_s (a b c : string) : (a +:+ b) +:+ c = a +:+ (b +:+ c).
Proof.
  induction a as [|ch a IH]; [reflexivity|].
  rewrite !app_cons. f_equal. exact IH.
Qed.

Lemma app_empty_r (a : string) : a +:+ "" = a.
Proof.
  induction a as [|ch a IH]; [reflexivity|].
  rewrite app_cons. f_equal. exact IH.
Qed.

Lemma app_inj_l (a b c : string) : a +:+ b = a +:+ c -> b = c.
Proof.
  induction a as [|ch a IH]; intros H; [exact H|].
  rewrite !app_cons in H. injection H. exact IH.
Qed.

(** ** Lookup of a character by name *)

Lemma character_by_name_None db n :
  character_by_name db n = None <->
  forall c, c ∈ characters db -> Character.name c <> n.
Proof.
  unfold character_by_name. rewrite head_None. split.
  - intros Hnil c Hc Hn.
    assert (Hin : c ∈ filter (fun c => Character.name c = n) (characters db))
      by (apply list_elem_of_filter; auto).
    rewrite Hnil in Hin. inversion Hin.
  - intros H. induction (characters db) as [|c l IH]; [reflexivity|].
    rewrite filter_cons. destruct (decide (Character.name c = n)) as [Hn|Hn].
    + exfalso. apply (H c); [left | exact Hn].
    + apply IH. intros c' Hc'. apply H. now right.
Qed.

Lemma character_by_name_Some db n c :
  character_by_name db n = Some c -> c ∈ characters db /\ Character.name c = n.
Proof.
  unfold character_by_name. intros H.
  apply head_Some_elem_of in H. apply list_elem_of_filter in H. tauto.
Qed.

Lemma character_by_name_found db n :
  (exists c, c ∈ characters db /\ Character.name c = n) ->
  exists c, character_by_name db n = Some c.
Proof.
  intros [c [Hc Hn]].
  destruct (character_by_name db n) as [c'|] eqn:E; [eauto|].
  exfalso. revert E. rewrite character_by_name_None. intros E. exact (E c Hc Hn).
Qed.

(** ** Character creation *)

(** C6. Creating a character whose name exactly equals that of a stored
    character returns the "already exists" message and leaves the database
    as it was. *)
Theorem add_character_duplicate db name description prompt_template :
  (exists c, c ∈ characters db /\ Character.name c = name) ->
  add_character db name description prompt_template
  = ("Character '" +:+ name +:+ "' already exists!", db).
Proof.
  intros H. apply character_by_name_found in H as [c Hc].
  unfold add_character. now rewrite Hc.
Qed.

Lemma add_character_duplicate_witness :
  add_character db_x "X" "another" "You are someone else."
  = ("Character 'X' already exists!", db_x).
Proof.
  apply (add_character_duplicate db_x "X" "another" "You are someone else.").
  eexists. split; [apply list_elem_of_here | reflexivity].
Defined.

(** Names are compared exactly: a name differing in case is accepted. *)
Example add_character_other_case :
  (add_character db_x "x" "another" "You are someone else.").1
  = "Character 'x' added successfully!" +:+ LF +:+ "Description: another".
Proof. reflexivity. Qed.

(** ** Chat against an unknown character *)

Lemma chat_not_found v w db character_name user_input user_id chat_id :
  (forall c, c ∈ characters db -> Character.name c <> character_name) ->
  chat_with_character_in v w db character_name user_input user_id chat_id
  = Some (character_not_found db).
Proof.
  intros H. apply character_by_name_None in H.
  destruct v; simpl; unfold Main.chat_with_character, Main2.chat_with_character;
    now rewrite H.
Qed.

(** C7. A chat call naming a character that is not stored returns the
    message "Character not found." as an ordinary result and leaves the
    database, hence the stored turns, unchanged; in both variants. *)
Theorem chat_unknown_character v w db character_name user_input user_id chat_id :
  (forall c, c ∈ characters db -> Character.name c <> character_name) ->
  exists o,
    chat_with_character_in v w db character_name user_input user_id chat_id = Some o
    /\ reply o = "Character not found."
    /\ db_after o = db
    /\ conversations (db_after o) = conversations db.
Proof.
  intros H. exists (character_not_found db).
  rewrite (chat_not_found _ _ _ _ _ _ _ H). auto.
Qed.

Lemma chat_unknown_character_witness :
  exists o,
    chat_with_character_in WithMemory (answering 200 "Ahoy!" t0) db_x
      "Nobody" "hi" 1 (Some "s") = Some o
    /\ reply o = "Character not found."
    /\ db_after o = db_x
    /\ conversations (db_after o) = conversations db_x.
Proof.
  apply (chat_unknown_character WithMemory (answering 200 "Ahoy!" t0) db_x
           "Nobody" "hi" 1 (Some "s")).
  intros c Hc. apply list_elem_of_singleton in Hc. subst c. discriminate.
Defined.

(** C10. For an unknown character the session component of the returned
    pair is [None] even when the caller supplied a chat id, and the call
    generates no identifier (and posts nothing). *)
Theorem chat_unknown_character_no_session v w db character_name user_input user_id
    chat_id :
  (forall c, c ∈ characters db -> Character.name c <> character_name) ->
  exists o,
    chat_with_character_in v w db character_name user_input user_id chat_id = Some o
    /\ session o = None
    /\ effects o = [].
Proof.
  intros H. exists (character_not_found db).
  rewrite (chat_not_found _ _ _ _ _ _ _ H). auto.
Qed.

Lemma chat_unknown_character_no_session_witness :
  exists o,
    chat_with_character_in WithoutMemory (answering 200 "Ahoy!" t0) db_x
      "Nobody" "hi" 1 (Some "my-session") = Some o
    /\ session o = None
    /\ effects o = [].
Proof.
  apply (chat_unknown_character_no_session WithoutMemory (answering 200 "Ahoy!" t0)
           db_x "Nobody" "hi" 1 (Some "my-session")).
  intros c Hc. apply list_elem_of_singleton in Hc. subst c. discriminate.
Defined.

(** ** The generation call *)

Ltac unfold_bind := unfold mbind, result_bind in *.

Lemma generate_candidate posted v :
  generate posted = Ok (Candidate v) ->
  exists response body,
    posted = Ok response
    /\ Response.status_code response = 200
    /\ Response.json response = Ok body
    /\ first_candidate_text body = Some v.
Proof.
  unfold generate. unfold_bind.
  destruct posted as [response|e]; [|discriminate].
  destruct (Response.status_code response =? 200) eqn:Hs.
  2:{ destruct (Response.json response); discriminate. }
  apply Z.eqb_eq in Hs.
  destruct (Response.json response) as [body|e] eqn:Hj; [|discriminate].
  intros H. exists response, body. repeat split; try assumption.
  destruct body as [| | | | s | items | members]; simpl in H; try discriminate.
  - destruct (is_substring "candidates" s); discriminate.
  - destruct (existsb _ items); discriminate.
  - simpl. destruct (assoc "candidates" members) as [c|]; simpl in H; [|discriminate].
    destruct c as [| | | | s | items | ms]; simpl in H; try discriminate.
    + destruct (0 <? Z.of_nat (String.length s)); [|discriminate].
      destruct s; discriminate.
    + destruct (0 <? Z.of_nat (length items)); [|discriminate].
      destruct items as [|first rest]; [discriminate|]. simpl in H.
      destruct first as [| | | | | | candidate]; simpl in H; try discriminate.
      destruct (assoc "content" candidate) as [ct|]; simpl in H; [|discriminate].
      destruct ct as [| | | | | | content]; simpl in H; try discriminate.
      destruct (assoc "parts" content) as [ps|]; simpl in H; [|discriminate].
      destruct ps as [| | | | s | parts | ms]; simpl in H; try discriminate.
      * destruct s; discriminate.
      * destruct parts as [|part rest']; [discriminate|]. simpl in H.
        destruct part as [| | | | | | part]; simpl in H; try discriminate.
        destruct (assoc "text" part) as [t|]; simpl in H; [|discriminate].
        congruence.
    + destruct (0 <? Z.of_nat (length ms)); discriminate.
Qed.

Lemma generate_first_candidate response body v :
  Response.status_code response = 200 ->
  Response.json response = Ok body ->
  first_candidate_text body = Some v ->
  generate (Ok response) = Ok (Candidate v).
Proof.
  intros Hs Hj Hv. unfold generate. unfold_bind. rewrite Hs, Hj. simpl.
  destruct body as [| | | | | | members]; try discriminate. simpl in *.
  destruct (assoc "candidates" members) as [c|]; [|discriminate].
  destruct c as [| | | | | items |]; try discriminate.
  destruct items as [|first rest]; [discriminate|].
  destruct first as [| | | | | | candidate]; try discriminate.
  simpl.
  destruct (assoc "content" candidate) as [ct|]; [|discriminate].
  destruct ct as [| | | | | | content]; try discriminate. simpl.
  destruct (assoc "parts" content) as [ps|]; [|discriminate].
  destruct ps as [| | | | | parts |]; try discriminate.
  destruct parts as [|part rest']; [discriminate|].
  destruct part as [| | | | | | part]; try discriminate. simpl.
  now rewrite Hv.
Qed.

Lemma generate_other_status response body :
  Response.status_code response <> 200 ->
  Response.json response = Ok body ->
  generate (Ok response)
  = Ok (ErrorText (status_error (Response.status_code response)
                                (Response.text response))).
Proof.
  intros Hs Hj. unfold generate. unfold_bind.
  apply Z.eqb_neq in Hs. now rewrite Hs, Hj.
Qed.

Lemma generate_no_candidates response body :
  Response.status_code response = 200 ->
  Response.json response = Ok body ->
  no_candidates body = true ->
  generate (Ok response) = Ok (ErrorText unexpected_format).
Proof.
  intros Hs Hj Hn. unfold generate. unfold_bind. rewrite Hs, Hj. simpl.
  destruct body as [| | | | | | members]; try discriminate. simpl in *.
  destruct (assoc "candidates" members) as [c|]; [|reflexivity].
  destruct c as [| | | | | items |]; try discriminate.
  destruct items; [reflexivity | discriminate].
Qed.

Lemma generate_error_text posted message :
  generate posted = Ok (ErrorText message) ->
  exists response,
    posted = Ok response /\
    (message = unexpected_format \/
     message = status_error (Response.status_code response) (Response.text response)).
Proof.
  unfold generate. unfold_bind.
  destruct posted as [response|e]; [|discriminate].
  intros H. exists response. split; [reflexivity|].
  destruct (Response.status_code response =? 200).
  - left.
    destruct (Response.json response) as [body|]; [|discriminate].
    destruct (py_contains "candidates" body) as [has|]; [|discriminate].
    destruct (if has then _ else _) as [nonempty|]; [|discriminate].
    destruct nonempty; [|injection H as <-; reflexivity].
    repeat match type of H with
           | match ?m with Ok _ => _ | Raise _ => _ end = _ =>
               destruct m; [|discriminate]
           end.
    discriminate.
  - right. destruct (Response.json response); [|discriminate].
    injection H as <-. reflexivity.
Qed.


(** The decimal rendering of a status code never starts with a letter, so
    the format message is none of the status messages. *)
Lemma pretty_N_char_head (x : N) : pretty_N_char x <> "U"%char.
Proof.
  unfold pretty_N_char.
  repeat match goal with
         | |- context [match ?p with _ => _ end] => is_var p; destruct p
         end; discriminate.
Qed.

Lemma pretty_N_go_head (x : N) (s : string) :
  (forall rest, s <> String "U" rest) ->
  forall rest, pretty_N_go x s <> String "U" rest.
Proof.
  revert s. induction (N.lt_wf_0 x) as [x _ IH]. intros s Hs.
  destruct (decide (x = 0)%N) as [->|Hx].
  - now rewrite pretty_N_go_0.
  - rewrite pretty_N_go_step by lia.
    apply IH; [apply N.div_lt; lia|].
    intros rest Heq. injection Heq as Hc _.
    exact (pretty_N_char_head _ Hc).
Qed.

Lemma pretty_Z_head (z : Z) (rest : string) : pretty z <> String "U" rest.
Proof.
  destruct z as [|p|p].
  - discriminate.
  - change (pretty (Z.pos p)) with (pretty_N_go (N.pos p) "").
    apply pretty_N_go_head. discriminate.
  - discriminate.
Qed.

Lemma unexpected_format_not_status (status_code : Z) (text : string) :
  unexpected_format <> status_error status_code text.
Proof.
  unfold unexpected_format, status_error. intros H.
  change "An error occurred while generating content: Unexpected response format."
    with ("An error occurred while generating content: "
          +:+ "Unexpected response format.") in H.
  apply app_inj_l in H.
  destruct (pretty status_code) as [|c r] eqn:E; [discriminate|].
  rewrite app_cons in H. injection H as Hc _. subst c.
  exact (pretty_Z_head status_code r E).
Qed.

Lemma first_candidate_has body v :
  first_candidate_text body = Some v -> has_candidates body = true.
Proof.
  destruct body as [| | | | | | members]; try discriminate. simpl.
  destruct (assoc "candidates" members) as [c|]; [|discriminate].
  destruct c as [| | | | | items |]; try discriminate.
  destruct items; [discriminate | reflexivity].
Qed.

Lemma generation_fails_no_candidate posted v :
  generation_fails posted -> generate posted <> Ok (Candidate v).
Proof.
  intros Hf Hg. apply generate_candidate in Hg as (r & body & -> & Hs & Hj & Hv).
  simpl in Hf. rewrite Hs, Hj in Hf. destruct Hf as [Hf|Hf]; [lia|].
  apply first_candidate_has in Hv. congruence.
Qed.

(** C3, as amended. For a response whose body decodes: with status exactly
    200 and a first candidate carrying [content.parts[0].text], the call
    yields that value; with any other status, 2xx or not, it yields the
    message carrying the status code and the body; with status 200 and no
    candidates, it yields the "Unexpected response format" message, which is
    none of the status messages. *)
Theorem generate_by_status response body :
  Response.json response = Ok body ->
  (Response.status_code response = 200 ->
   forall v, first_candidate_text body = Some v ->
             generate (Ok response) = Ok (Candidate v))
  /\ (Response.status_code response <> 200 ->
      generate (Ok response)
      = Ok (ErrorText (status_error (Response.status_code response)
                                    (Response.text response))))
  /\ (Response.status_code response = 200 ->
      no_candidates body = true ->
      generate (Ok response) = Ok (ErrorText unexpected_format)
      /\ forall status_code text, unexpected_format <> status_error status_code text).
Proof.
  intros Hj. split; [|split].
  - intros Hs v Hv. exact (generate_first_candidate _ _ _ Hs Hj Hv).
  - intros Hs. exact (generate_other_status _ _ Hs Hj).
  - intros Hs Hn. split.
    + exact (generate_no_candidates _ _ Hs Hj Hn).
    + apply unexpected_format_not_status.
Qed.

Lemma generate_by_status_witness :
  generate (Ok created_201)
  = Ok (ErrorText "An error occurred while generating content: 201 - {...}")
  /\ generate (Ok blocked_200)
     = Ok (ErrorText "An error occurred while generating content: Unexpected response format.").
Proof.
  split.
  - refine (proj1 (proj2 (generate_by_status created_201 (candidate_body "Ahoy!")
                            eq_refl)) _).
    discriminate.
  - refine (proj1 (proj2 (proj2 (generate_by_status blocked_200
                                   (JObj [("promptFeedback", JObj [])]) eq_refl))
                     eq_refl eq_refl)).
Defined.

(** C3 as stated fails: a 201 response carrying a candidate is answered
    with the status message, not with the candidate's text. *)
Lemma generate_2xx_counterexample :
  ~ (forall response body text,
       200 <= Response.status_code response < 300 ->
       Response.json response = Ok body ->
       first_candidate_text body = Some (JStr text) ->
       generate (Ok response) = Ok (Candidate (JStr text))).
Proof.
  intros H.
  specialize (H created_201 (candidate_body "Ahoy!") "Ahoy!").
  assert (Hr : 200 <= Response.status_code created_201 < 300) by (simpl; lia).
  specialize (H Hr eq_refl eq_refl). vm_compute in H. discriminate.
Qed.

(** ** Chat when the endpoint fails *)

Lemma converse_failure w db character user_input user_id chat_id before full_prompt :
  generation_fails (requests_post w (payload full_prompt)) ->
  exists message,
    converse w db character user_input user_id chat_id before full_prompt
    = Some {| reply := message; session := Some chat_id; db_after := db;
              effects := before ++ [HttpPost (payload full_prompt)] |}
    /\ is_error_text message.
Proof.
  intros Hf. unfold converse.
  destruct (generate (requests_post w (payload full_prompt))) as [[v|message]|e] eqn:Hg.
  - exfalso. exact (generation_fails_no_candidate _ _ Hf Hg).
  - exists message. split; [reflexivity|].
    apply generate_error_text in Hg as (r & _ & [->| ->]).
    + now left.
    + right; left. eauto.
  - eexists. split; [reflexivity|]. right; right. eauto.
Qed.

(** C4. When the endpoint fails, a chat call with a stored character
    leaves the database, hence the stored turns, exactly as it was, and
    returns one of the error messages together with the chat id in force:
    the caller's, or the freshly generated one; in both variants. *)
Theorem chat_generation_failure v w db character_name user_input user_id chat_id
    character :
  character_by_name db character_name = Some character ->
  generation_fails
    (requests_post w (payload (full_prompt_in v db character user_id user_input))) ->
  exists o,
    chat_with_character_in v w db character_name user_input user_id chat_id = Some o
    /\ db_after o = db
    /\ conversations (db_after o) = conversations db
    /\ is_error_text (reply o)
    /\ session o = Some (if falsy chat_id then uuid4 w else default "" chat_id).
Proof.
  intros Hc Hf.
  destruct v; simpl in *;
    unfold Main.chat_with_character, Main2.chat_with_character; rewrite Hc;
    unfold resolve_chat_id; destruct (falsy chat_id);
    match goal with
    | |- context [converse ?w ?d ?c ?u ?i ?s ?b ?p] =>
        destruct (converse_failure w d c u i s b p Hf) as (m & -> & Hm)
    end;
    eexists; (split; [reflexivity|]); simpl; auto.
Qed.

Lemma chat_generation_failure_witness :
  exists o,
    chat_with_character_in WithMemory (answering 503 "Ahoy!" t0) db_x
      "X" "hi" 1 None = Some o
    /\ db_after o = db_x
    /\ conversations (db_after o) = conversations db_x
    /\ is_error_text (reply o)
    /\ session o = Some "3f2b8c1e-0000-4000-8000-000000000001".
Proof.
  refine (chat_generation_failure WithMemory (answering 503 "Ahoy!" t0) db_x
            "X" "hi" 1 None _ eq_refl _).
  left. simpl. lia.
Defined.

(** ** Chat when the endpoint answers *)

Lemma chat_success v w db character_name user_input user_id chat_id character
    response body bot_response :
  character_by_name db character_name = Some character ->
  requests_post w (payload (full_prompt_in v db character user_id user_input))
  = Ok response ->
  Response.status_code response = 200 ->
  Response.json response = Ok body ->
  first_candidate_text body = Some (JStr bot_response) ->
  exists o,
    chat_with_character_in v w db character_name user_input user_id chat_id = Some o
    /\ reply o = bot_response
    /\ session o = Some (resolve_chat_id w chat_id).1
    /\ db_after o
       = insert_conversation db (utcnow w) character user_input bot_response
           (resolve_chat_id w chat_id).1 user_id.
Proof.
  intros Hc Hp Hs Hj Ht.
  pose proof (generate_first_candidate _ _ _ Hs Hj Ht) as Hg. rewrite <- Hp in Hg.
  destruct v; simpl in *;
    unfold Main.chat_with_character, Main2.chat_with_character; rewrite Hc;
    destruct (resolve_chat_id w chat_id) as [cid before];
    unfold converse; rewrite Hg; eexists; (split; [reflexivity|]); auto.
Qed.

(** The only calls the model leaves undescribed are those whose extracted
    [text] is not a string. *)
Lemma chat_undescribed v w db character_name user_input user_id chat_id :
  chat_with_character_in v w db character_name user_input user_id chat_id = None ->
  exists character value,
    character_by_name db character_name = Some character
    /\ generate (requests_post w
                   (payload (full_prompt_in v db character user_id user_input)))
       = Ok (Candidate value)
    /\ forall s, value <> JStr s.
Proof.
  destruct v; simpl;
    unfold Main.chat_with_character, Main2.chat_with_character;
    (destruct (character_by_name db character_name) as [character|];
     [|discriminate]);
    destruct (resolve_chat_id w chat_id) as [cid before];
    unfold converse;
    destruct (generate _) as [[value|m]|e] eqn:Hg; try discriminate;
    destruct value; try discriminate; intros _;
    eexists _, _; (split; [reflexivity|]); (split; [exact Hg|]); discriminate.
Qed.

Example chat_ahoy :
  exists o,
    Main.chat_with_character (answering 200 "Ahoy!" t0) db_x "X" "hi" 1 None = Some o
    /\ reply o = "Ahoy!"
    /\ session o = Some "3f2b8c1e-0000-4000-8000-000000000001"
    /\ map Conversation.bot_response (conversations (db_after o)) = ["Ahoy!"].
Proof. eexists. repeat split; reflexivity. Qed.

(** ** The prompt that is posted *)

Lemma converse_effects w db character user_input user_id chat_id before full_prompt o :
  converse w db character user_input user_id chat_id before full_prompt = Some o ->
  effects o = before ++ [HttpPost (payload full_prompt)].
Proof.
  unfold converse.
  destruct (generate _) as [[v|m]|e]; [destruct v| |]; intros H;
    try discriminate; injection H as <-; reflexivity.
Qed.

Lemma chat_is_converse v w db character_name user_input user_id chat_id character :
  character_by_name db character_name = Some character ->
  chat_with_character_in v w db character_name user_input user_id chat_id
  = converse w db character user_input user_id
      (resolve_chat_id w chat_id).1 (resolve_chat_id w chat_id).2
      (full_prompt_in v db character user_id user_input).
Proof.
  intros Hc.
  destruct v; simpl;
    unfold Main.chat_with_character, Main2.chat_with_character; rewrite Hc;
    now destruct (resolve_chat_id w chat_id).
Qed.

Lemma chat_posts v w db character_name user_input user_id chat_id character o :
  character_by_name db character_name = Some character ->
  chat_with_character_in v w db character_name user_input user_id chat_id = Some o ->
  effects o
  = (resolve_chat_id w chat_id).2
    ++ [HttpPost (payload (full_prompt_in v db character user_id user_input))].
Proof.
  intros Hc.
  destruct v; simpl;
    unfold Main.chat_with_character, Main2.chat_with_character; rewrite Hc;
    destruct (resolve_chat_id w chat_id) as [cid before];
    apply converse_effects.
Qed.






(** ** Ordering *)

Section OrderByFacts.
Context {A : Type} (leb : A -> A -> bool).
Hypothesis leb_total : forall a b, leb a b = true \/ leb b a = true.
Hypothesis leb_trans : forall a b c, leb a b = true -> leb b c = true -> leb a c = true.

Lemma insert_by_perm (x : A) (l : list A) : insert_by leb x l ≡ₚ x :: l.
Proof.
  induction l as [|y l IH]; simpl; [reflexivity|].
  destruct (leb x y); [reflexivity|].
  rewrite IH. apply perm_swap.
Qed.

Lemma order_by_perm (l : list A) : order_by leb l ≡ₚ l.
Proof.
  induction l as [|x l IH]; simpl; [reflexivity|].
  rewrite insert_by_perm. now rewrite IH.
Qed.

Lemma insert_by_sorted (x : A) (l : list A) :
  StronglySorted (fun a b => leb a b = true) l ->
  StronglySorted (fun a b => leb a b = true) (insert_by leb x l).
Proof.
  induction l as [|y l IH]; simpl; intros Hs.
  - repeat constructor.
  - apply StronglySorted_inv in Hs as [Hl Hy].
    destruct (leb x y) eqn:E.
    + constructor; [constructor; assumption|].
      constructor; [exact E|].
      eapply Forall_impl; [exact Hy|]. intros z Hz. simpl in Hz. eauto.
    + constructor; [apply IH; exact Hl|].
      rewrite insert_by_perm. constructor; [|exact Hy].
      destruct (leb_total x y) as [H|H]; congruence.
Qed.

Lemma order_by_sorted (l : list A) :
  StronglySorted (fun a b => leb a b = true) (order_by leb l).
Proof.
  induction l as [|x l IH]; simpl; [constructor|].
  now apply insert_by_sorted.
Qed.

Lemma order_by_elem_of (x : A) (l : list A) : x ∈ order_by leb l <-> x ∈ l.
Proof.
  induction l as [|y l IH]; simpl; [reflexivity|].
  assert (Hi : forall z k, z ∈ insert_by leb y k <-> z = y \/ z ∈ k).
  { intros z k. induction k as [|w k IHk]; simpl.
    - rewrite list_elem_of_singleton. split; [auto|]. intros [H|H]; [exact H|inversion H].
    - destruct (leb y w); rewrite !elem_of_cons; [tauto|]. rewrite IHk. tauto. }
  rewrite Hi, elem_of_cons, IH. tauto.
Qed.
End OrderByFacts.

Lemma lex_leb_total (a b : list N) : lex_leb a b = true \/ lex_leb b a = true.
Proof.
  revert b. induction a as [|x a IH]; intros [|y b]; simpl; auto.
  destruct (x <? y)%N eqn:Hxy; [auto|].
  destruct (y <? x)%N eqn:Hyx; [auto|]. apply IH.
Qed.

Lemma lex_leb_trans (a b c : list N) :
  lex_leb a b = true -> lex_leb b c = true -> lex_leb a c = true.
Proof.
  revert b c. induction a as [|x a IH]; intros [|y b] [|z c]; simpl; auto;
    try discriminate.
  destruct (x <? y)%N eqn:Hxy, (y <? x)%N eqn:Hyx,
           (y <? z)%N eqn:Hyz, (z <? y)%N eqn:Hzy,
           (x <? z)%N eqn:Hxz, (z <? x)%N eqn:Hzx;
    try discriminate; auto;
    repeat match goal with
           | H : (_ <? _)%N = true |- _ => apply N.ltb_lt in H
           | H : (_ <? _)%N = false |- _ => apply N.ltb_ge in H
           end;
    try lia.
  apply IH.
Qed.

Lemma dt_leb_total (a b : datetime) : dt_leb a b = true \/ dt_leb b a = true.
Proof. apply lex_leb_total. Qed.

Lemma dt_leb_trans (a b c : datetime) :
  dt_leb a b = true -> dt_leb b c = true -> dt_leb a c = true.
Proof. apply lex_leb_trans. Qed.

Lemma dt_leb_refl (a : datetime) : dt_leb a a = true.
Proof. destruct (dt_leb_total a a); assumption. Qed.

(** ** History of a chat *)

Lemma by_timestamp_total (a b : Conversation.t) :
  by_timestamp a b = true \/ by_timestamp b a = true.
Proof. apply dt_leb_total. Qed.

Lemma by_timestamp_trans (a b c : Conversation.t) :
  by_timestamp a b = true -> by_timestamp b c = true -> by_timestamp a c = true.
Proof. apply dt_leb_trans. Qed.

Lemma conversations_by_chat_perm db cid :
  conversations_by_chat db cid
  ≡ₚ filter (fun c => Conversation.chat_id c = Some cid) (conversations db).
Proof. apply order_by_perm. Qed.

Lemma conversations_by_chat_sorted db cid :
  StronglySorted (fun a b => by_timestamp a b = true) (conversations_by_chat db cid).
Proof. apply order_by_sorted; [apply by_timestamp_total | apply by_timestamp_trans]. Qed.

Lemma foldl_render (init : string) (turns : list Conversation.t) :
  foldl (fun history conv => history +:+ Main.render_turn conv) init turns
  = init +:+ Main.transcript turns.
Proof.
  revert init. induction turns as [|conv turns IH]; intros init; simpl.
  - now rewrite app_empty_r.
  - rewrite IH. now rewrite app_assoc_s.
Qed.

Lemma transcript_lines (turns : list Conversation.t) :
  Main.transcript turns
  = foldr (fun conv following =>
             "[" +:+ strftime (Conversation.timestamp conv) +:+ "]" +:+ LF
             +:+ "User: " +:+ fmt_opt (Conversation.user_input conv) +:+ LF
             +:+ "Bot: " +:+ Conversation.bot_response conv +:+ LF +:+ LF
             +:+ following)
          "" turns.
Proof.
  induction turns as [|conv turns IH]; [reflexivity|].
  simpl. rewrite <- IH. unfold Main.render_turn. now rewrite !app_assoc_s.
Qed.

(** C8. For a chat id with no stored turn, the history is a sentinel
    sentence ("No chat ID provided." for the empty id, "No chat history
    found for this ID." otherwise); for a chat id with stored turns it is
    the line "Chat History with <name> (ID: <chat id>):", naming the
    character of the earliest turn, and an empty line, followed for each of
    these turns, in ascending timestamp order, by its timestamp in brackets,
    the line "User: <user input>", the line "Bot: <bot response>" and an
    empty line.  Stored chat ids are never the empty string. *)
Theorem chat_history_transcript db cid :
  (forall conv, conv ∈ conversations db -> Conversation.chat_id conv <> Some "") ->
  let stored := filter (fun c => Conversation.chat_id c = Some cid) (conversations db) in
  (stored = [] ->
   Main.get_chat_history db (Some cid)
   = if decide (cid = "") then "No chat ID provided."
     else "No chat history found for this ID.")
  /\ (stored <> [] ->
      exists first rest,
        first :: rest ≡ₚ stored
        /\ StronglySorted
             (fun a b => dt_leb (Conversation.timestamp a) (Conversation.timestamp b) = true)
             (first :: rest)
        /\ Main.get_chat_history db (Some cid)
           = Main.history_header db first cid +:+ Main.transcript (first :: rest)
        /\ (forall character,
              character_get db (Conversation.character_id first) = Some character ->
              Main.history_header db first cid
              = "Chat History with " +:+ Character.name character
                +:+ " (ID: " +:+ cid +:+ "):" +:+ LF +:+ LF)
        /\ conversations_by_chat db cid = first :: rest
        /\ Main.get_chat_history db (Some cid)
           = "Chat History with "
             +:+ match character_get db (Conversation.character_id first) with
                 | Some character => Character.name character
                 | None => "Unknown Character"
                 end
             +:+ " (ID: " +:+ cid +:+ "):" +:+ LF +:+ LF
             +:+ foldr (fun conv following =>
                          "[" +:+ strftime (Conversation.timestamp conv) +:+ "]" +:+ LF
                          +:+ "User: " +:+ fmt_opt (Conversation.user_input conv) +:+ LF
                          +:+ "Bot: " +:+ Conversation.bot_response conv +:+ LF +:+ LF
                          +:+ following)
                       "" (first :: rest)).
Proof.
  intros Hinv stored. split.
  - intros Hnil. unfold Main.get_chat_history. simpl.
    destruct (decide (cid = "")) as [->|Hne].
    + reflexivity.
    + rewrite bool_decide_eq_false_2 by exact Hne.
      pose proof (conversations_by_chat_perm db cid) as Hp.
      fold stored in Hp. rewrite Hnil in Hp.
      apply Permutation_nil_r in Hp. simpl. now rewrite Hp.
  - intros Hne.
    assert (Hcid : cid <> "").
    { intros ->. destruct stored as [|conv l] eqn:E; [congruence|].
      assert (Hin : conv ∈ stored) by (rewrite E; left).
      apply list_elem_of_filter in Hin as [Hc Hin]. exact (Hinv conv Hin Hc). }
    pose proof (conversations_by_chat_perm db cid) as Hp.
    pose proof (conversations_by_chat_sorted db cid) as Hs.
    fold stored in Hp.
    unfold Main.get_chat_history. simpl.
    rewrite bool_decide_eq_false_2 by exact Hcid. simpl.
    destruct (conversations_by_chat db cid) as [|first rest].
    + symmetry in Hp. apply Permutation_nil_r in Hp. congruence.
    + exists first, rest. split; [exact Hp|]. split; [exact Hs|].
      assert (Hhist :
        foldl (fun history conv => history +:+ Main.render_turn conv)
              (Main.history_header db first cid) (first :: rest)
        = Main.history_header db first cid +:+ Main.transcript (first :: rest))
        by exact (foldl_render (Main.history_header db first cid) (first :: rest)).
      split; [exact Hhist|]. split.
      * intros character Hch. unfold Main.history_header. now rewrite Hch.
      * split; [reflexivity|].
        etransitivity; [exact Hhist|].
        rewrite transcript_lines. unfold Main.history_header.
        now rewrite !app_assoc_s.
Qed.

Ltac elem_cases H :=
  repeat (apply elem_of_cons in H as [H|H]; [subst|]); [..|inversion H].

Lemma chat_history_transcript_witness :
  Main.get_chat_history db_abcd (Some "s")
  = "Chat History with X (ID: s):" +:+ LF +:+ LF
    +:+ "[2024-03-09 07:05:01]" +:+ LF +:+ "User: a" +:+ LF +:+ "Bot: b" +:+ LF +:+ LF
    +:+ "[2024-03-09 07:06:30]" +:+ LF +:+ "User: c" +:+ LF +:+ "Bot: d" +:+ LF +:+ LF.
Proof.
  assert (Hids : forall conv, conv ∈ conversations db_abcd ->
                   Conversation.chat_id conv <> Some "").
  { intros conv Hc. vm_compute in Hc. elem_cases Hc; discriminate. }
  destruct (proj2 (chat_history_transcript db_abcd "s" Hids))
    as (first & rest & _ & _ & _ & _ & Hq & Hhistory).
  - discriminate.
  - vm_compute in Hq. injection Hq as <- <-. rewrite Hhistory. reflexivity.
Defined.

(** ** Invariants of the reachable databases *)

Lemma next_id_fresh (ids : list Z) : next_id ids ∉ ids.
Proof.
  assert (H : forall x, x ∈ ids -> x <= foldr Z.max 0 ids).
  { induction ids as [|y ids IH]; intros x Hx; [inversion Hx|].
    simpl. apply elem_of_cons in Hx as [->|Hx]; [lia|].
    specialize (IH x Hx). lia. }
  intros Hin. apply H in Hin. unfold next_id in Hin. lia.
Qed.

Lemma insert_character_well_formed db n d p :
  character_by_name db n = None ->
  well_formed db -> well_formed (insert_character db n d p).
Proof.
  intros Hn (Hnames & Hids & Hchat & Href). unfold well_formed, insert_character.
  simpl. rewrite !map_app. simpl. split; [|split; [|split]].
  - apply NoDup_app. split; [exact Hnames|]. split; [|apply NoDup_singleton].
    intros x Hx Hx'. apply list_elem_of_singleton in Hx'. subst x.
    apply list_elem_of_fmap in Hx as (c & Hc & Hin).
    rewrite character_by_name_None in Hn. exact (Hn c Hin (eq_sym Hc)).
  - apply NoDup_app. split; [exact Hids|]. split; [|apply NoDup_singleton].
    intros x Hx Hx'. apply list_elem_of_singleton in Hx'. subst x.
    exact (next_id_fresh _ Hx).
  - exact Hchat.
  - intros conv Hc. specialize (Href conv Hc). unfold character_get in *. simpl.
    rewrite filter_app. destruct (filter _ (characters db)); [|eauto].
    destruct Href as [x Hx]. discriminate.
Qed.

Lemma add_character_well_formed db n d p :
  well_formed db -> well_formed (add_character db n d p).2.
Proof.
  intros Hwf. unfold add_character.
  destruct (character_by_name db n) eqn:E; simpl; [exact Hwf|].
  now apply insert_character_well_formed.
Qed.

Lemma add_predefined_characters_well_formed db :
  well_formed db -> well_formed (add_predefined_characters db).
Proof.
  unfold add_predefined_characters. revert db.
  induction predefined_characters as [|[[n d] p] l IH]; intros db Hwf; simpl;
    [exact Hwf|].
  apply IH. destruct (character_by_name db n) eqn:E; [exact Hwf|].
  now apply insert_character_well_formed.
Qed.

Lemma converse_db w db character user_input user_id chat_id before full_prompt o :
  converse w db character user_input user_id chat_id before full_prompt = Some o ->
  db_after o = db \/
  exists bot_response,
    db_after o = insert_conversation db (utcnow w) character user_input
                   bot_response chat_id user_id.
Proof.
  unfold converse.
  destruct (generate _) as [[v|m]|e]; [destruct v| |]; intros H;
    try discriminate; injection H as <-; simpl; eauto.
Qed.

Lemma resolve_chat_id_nonempty w chat_id :
  uuid4 w <> "" -> (resolve_chat_id w chat_id).1 <> "".
Proof.
  intros Hu. unfold resolve_chat_id.
  destruct chat_id as [c|]; simpl; [|exact Hu].
  destruct (bool_decide (c = "")) eqn:E; simpl; [exact Hu|].
  now apply bool_decide_eq_false in E.
Qed.

Lemma chat_db v w db character_name user_input user_id chat_id o :
  chat_with_character_in v w db character_name user_input user_id chat_id = Some o ->
  db_after o = db \/
  exists character bot_response,
    character_by_name db character_name = Some character
    /\ db_after o = insert_conversation db (utcnow w) character user_input
                      bot_response (resolve_chat_id w chat_id).1 user_id.
Proof.
  destruct v; simpl;
    unfold Main.chat_with_character, Main2.chat_with_character;
    (destruct (character_by_name db character_name) as [character|];
     [|intros H; injection H as <-; now left]);
    destruct (resolve_chat_id w chat_id) as [cid before];
    intros H; apply converse_db in H as [H|[b H]]; eauto.
Qed.

Lemma chat_well_formed v w db character_name user_input user_id chat_id o :
  uuid4 w <> "" ->
  chat_with_character_in v w db character_name user_input user_id chat_id = Some o ->
  well_formed db -> well_formed (db_after o).
Proof.
  intros Hu Ho Hwf. apply chat_db in Ho as [->|(character & b & Hfound & ->)];
    [exact Hwf|].
  destruct Hwf as (Hnames & Hids & Hchat & Href).
  unfold well_formed, insert_conversation. simpl.
  split; [exact Hnames|]. split; [exact Hids|]. split.
  - intros conv Hc. apply elem_of_app in Hc as [Hc|Hc]; [now apply Hchat|].
    apply list_elem_of_singleton in Hc. subst conv. simpl.
    eexists. split; [reflexivity|]. now apply resolve_chat_id_nonempty.
  - intros conv Hc. apply elem_of_app in Hc as [Hc|Hc]; [now apply Href|].
    apply list_elem_of_singleton in Hc. subst conv. simpl.
    apply character_by_name_Some in Hfound as [Hin _].
    unfold character_get. simpl.
    destruct (filter _ (characters db)) as [|c l] eqn:E; [|eauto]. exfalso.
    assert (Hc : character ∈ filter (fun c => Character.id c = Character.id character)
                               (characters db))
      by (apply list_elem_of_filter; auto).
    rewrite E in Hc. inversion Hc.
Qed.

Lemma reachable_well_formed db : reachable db -> well_formed db.
Proof.
  induction 1 as [|db _ IH|db n d p _ IH|v w db cn ui uid cid o _ IH Hu Ho].
  - repeat split; try constructor; intros conv Hc; inversion Hc.
  - now apply add_predefined_characters_well_formed.
  - now apply add_character_well_formed.
  - exact (chat_well_formed _ _ _ _ _ _ _ _ Hu Ho IH).
Qed.

Lemma created_reachable db : created db -> reachable db.
Proof. induction 1; now constructor. Qed.

Lemma reachable_chat_ids db :
  reachable db ->
  forall conv, conv ∈ conversations db -> Conversation.chat_id conv <> Some "".
Proof.
  intros Hr conv Hc.
  destruct (reachable_well_formed db Hr) as (_ & _ & Hchat & _).
  destruct (Hchat conv Hc) as (cid & -> & Hne). congruence.
Qed.

Lemma reachable_ids_unique db :
  reachable db -> NoDup (map Character.id (characters db)).
Proof. intros Hr. exact (proj1 (proj2 (reachable_well_formed db Hr))). Qed.

(** C9, as amended. In every database reachable through the creation of
    characters, no two stored characters share a name. *)
Theorem created_names_unique db :
  created db -> NoDup (map Character.name (characters db)).
Proof.
  intros H. exact (proj1 (reachable_well_formed db (created_reachable db H))).
Qed.

Lemma created_names_unique_witness :
  NoDup (map Character.name (characters (add_character db_x "Y" "e" "You are Y.").2)).
Proof.
  apply (created_names_unique (add_character db_x "Y" "e" "You are Y.").2).
  apply created_add. apply (created_add empty_db "X" "d" "You are X.").
  apply created_empty.
Defined.

(** C9 as stated fails: creation accepts empty strings, so a database
    reached by one creation can hold a character whose name, description
    and template are all empty. *)
Lemma created_nonempty_counterexample :
  ~ (forall db, created db ->
       (forall c, c ∈ characters db ->
          Character.name c <> "" /\ Character.description c <> ""
          /\ Character.prompt_template c <> "")
       /\ NoDup (map Character.name (characters db))).
Proof.
  intros H.
  assert (Hr : created (add_character empty_db "" "" "").2)
    by (apply created_add, created_empty).
  destruct (H _ Hr) as [Hc _].
  destruct (Hc {| Character.id := 1; Character.name := "";
                  Character.description := "";
                  Character.prompt_template := "" |}) as [Hn _].
  - apply list_elem_of_here.
  - now apply Hn.
Qed.

(** ** The chat list *)

Lemma upsert_keys_old r groups :
  r.1 ∈ map gkey groups -> map gkey (Main.upsert r groups) = map gkey groups.
Proof.
  destruct r as [[cid cn] ts]. simpl.
  induction groups as [|g rest IH]; simpl; intros Hin; [inversion Hin|].
  destruct (bool_decide _) eqn:E.
  - apply bool_decide_eq_true in E as [E1 E2]. simpl. f_equal.
    unfold gkey. simpl. congruence.
  - apply bool_decide_eq_false in E. simpl. f_equal. apply IH.
    apply elem_of_cons in Hin as [Hin|Hin]; [|exact Hin].
    exfalso. apply E. unfold gkey in Hin. injection Hin as -> ->. auto.
Qed.

Lemma upsert_keys_new r groups :
  r.1 ∉ map gkey groups -> map gkey (Main.upsert r groups) = map gkey groups ++ [r.1].
Proof.
  destruct r as [[cid cn] ts]. simpl.
  induction groups as [|g rest IH]; simpl; intros Hin; [reflexivity|].
  destruct (bool_decide _) eqn:E.
  - apply bool_decide_eq_true in E as [E1 E2].
    exfalso. apply Hin. subst cid cn. apply list_elem_of_here.
  - simpl. f_equal. apply IH. intros H. apply Hin. now right.
Qed.

Lemma upsert_elem r groups g' :
  NoDup (map gkey groups) ->
  g' ∈ Main.upsert r groups ->
  (g' ∈ groups /\ gkey g' <> r.1)
  \/ ((r.1 ∉ map gkey groups) /\ gkey g' = r.1
      /\ Main.start_time g' = r.2 /\ Main.message_count g' = 1)
  \/ (exists g, g ∈ groups /\ gkey g = r.1 /\ gkey g' = r.1
       /\ Main.start_time g' = dt_min (Main.start_time g) r.2
       /\ Main.message_count g' = Main.message_count g + 1).
Proof.
  destruct r as [[cid cn] ts]. simpl.
  induction groups as [|g rest IH]; simpl; intros Hnd Hin.
  - apply list_elem_of_singleton in Hin. subst g'. right; left.
    split; [intros H; inversion H | auto].
  - apply NoDup_cons in Hnd as [Hg Hnd].
    destruct (bool_decide _) eqn:E.
    + apply bool_decide_eq_true in E as [E1 E2].
      assert (Hk : gkey g = (cid, cn)) by (unfold gkey; congruence).
      apply elem_of_cons in Hin as [->|Hin].
      * right; right. exists g. split; [left|]. auto.
      * left. split; [now right|]. intros Hk'. apply Hg.
        rewrite Hk, <- Hk'. apply list_elem_of_fmap. eauto.
    + apply bool_decide_eq_false in E.
      assert (Hk : gkey g <> (cid, cn)).
      { unfold gkey. intros Hk. injection Hk as <- <-. now apply E. }
      apply elem_of_cons in Hin as [->|Hin].
      * left. split; [left | exact Hk].
      * destruct (IH Hnd Hin) as [[H1 H2]|[(H1 & H2)|(g0 & H1 & H2)]].
        -- left. split; [now right | exact H2].
        -- right; left. split; [|exact H2].
           intros H. apply elem_of_cons in H as [H|H]; [now apply Hk | now apply H1].
        -- right; right. exists g0. split; [now right | exact H2].
Qed.

Lemma dt_min_le_l a b : dt_leb (dt_min a b) a = true.
Proof.
  unfold dt_min. destruct (dt_leb a b) eqn:E; [apply dt_leb_refl|].
  destruct (dt_leb_total a b); congruence.
Qed.

Lemma dt_min_le_r a b : dt_leb (dt_min a b) b = true.
Proof. unfold dt_min. destruct (dt_leb a b) eqn:E; [exact E | apply dt_leb_refl]. Qed.

Lemma dt_min_cases a b : dt_min a b = a \/ dt_min a b = b.
Proof. unfold dt_min. destruct (dt_leb a b); auto. Qed.

Lemma upsert_ok r groups rows :
  groups_ok groups rows -> groups_ok (Main.upsert r groups) (r :: rows).
Proof.
  intros (Hnd & Hrep & Hcov).
  destruct (decide (r.1 ∈ map gkey groups)) as [Hin|Hin].
  - (* the row joins an existing group *)
    split; [|split].
    + now rewrite upsert_keys_old.
    + intros g' Hg'. apply (upsert_elem _ _ _ Hnd) in Hg'.
      destruct Hg' as [[Hg Hk]|[(Hno & _)|(g & Hg & Hk & Hk' & Hst & Hct)]].
      * destruct (Hrep g' Hg) as (Hc & Hs & Hle).
        unfold represents. rewrite filter_cons_False by congruence.
        auto.
      * contradiction.
      * destruct (Hrep g Hg) as (Hc & Hs & Hle).
        unfold represents. rewrite Hk'. rewrite filter_cons_True by reflexivity.
        rewrite <- Hk. simpl. split; [|split].
        -- rewrite Hct, Hc. lia.
        -- rewrite Hst. destruct (dt_min_cases (Main.start_time g) r.2) as [->| ->];
             [now right | left].
        -- intros t Ht. rewrite Hst. apply elem_of_cons in Ht as [->|Ht].
           ++ apply dt_min_le_r.
           ++ eapply dt_leb_trans; [apply dt_min_le_l | now apply Hle].
    + intros r' Hr'. rewrite upsert_keys_old by exact Hin.
      apply elem_of_cons in Hr' as [->|Hr']; [exact Hin | now apply Hcov].
  - (* the row opens a group *)
    assert (Hnone : filter (fun r' : string * string * datetime => r'.1 = r.1) rows = []).
    { destruct (filter _ rows) as [|r' l] eqn:E; [reflexivity|]. exfalso.
      assert (Hr' : r' ∈ filter (fun r' : string * string * datetime => r'.1 = r.1) rows)
        by (rewrite E; left).
      apply list_elem_of_filter in Hr' as [Hk Hr']. apply Hin.
      rewrite <- Hk. now apply Hcov. }
    split; [|split].
    + rewrite upsert_keys_new by exact Hin.
      apply NoDup_app. split; [exact Hnd|]. split; [|apply NoDup_singleton].
      intros k Hk Hk'. apply list_elem_of_singleton in Hk'. now subst k.
    + intros g' Hg'. apply (upsert_elem _ _ _ Hnd) in Hg'.
      destruct Hg' as [[Hg Hk]|[(_ & Hk & Hst & Hct)|(g & Hg & Hk & _)]].
      * destruct (Hrep g' Hg) as (Hc & Hs & Hle).
        unfold represents. rewrite filter_cons_False by congruence.
        auto.
      * unfold represents. rewrite Hk. rewrite filter_cons_True by reflexivity.
        rewrite Hnone. simpl. rewrite Hst, Hct. split; [reflexivity|].
        split; [left|]. intros t Ht. apply list_elem_of_singleton in Ht. subst t.
        apply dt_leb_refl.
      * exfalso. apply Hin. rewrite <- Hk. apply list_elem_of_fmap. eauto.
    + intros r' Hr'. rewrite upsert_keys_new by exact Hin.
      apply elem_of_app. apply elem_of_cons in Hr' as [->|Hr'].
      * right. left.
      * left. now apply Hcov.
Qed.

Lemma groups_ok_perm groups rows rows' :
  rows ≡ₚ rows' -> groups_ok groups rows -> groups_ok groups rows'.
Proof.
  intros Hp (Hnd & Hrep & Hcov). split; [exact Hnd|]. split.
  - intros g Hg. destruct (Hrep g Hg) as (Hc & Hs & Hle).
    assert (Hq : map snd (filter (fun r : string * string * datetime => r.1 = gkey g) rows)
                 ≡ₚ map snd (filter (fun r : string * string * datetime => r.1 = gkey g)
                                    rows'))
      by (now rewrite Hp).
    unfold represents. split; [|split].
    + rewrite Hc. now rewrite Hq.
    + now rewrite <- Hq.
    + intros t Ht. rewrite <- Hq in Ht. now apply Hle.
  - intros r Hr. apply Hcov. now rewrite Hp.
Qed.

Lemma group_by_ok rows : groups_ok (Main.group_by rows) rows.
Proof.
  assert (H : forall more groups seen,
             groups_ok groups seen ->
             groups_ok (foldl (fun gs r => Main.upsert r gs) groups more)
                       (rev more ++ seen)).
  { induction more as [|r more IH]; intros groups seen Hok; simpl; [exact Hok|].
    rewrite <- app_assoc. simpl. apply IH. now apply upsert_ok. }
  specialize (H rows [] []).
  rewrite app_nil_r in H. eapply groups_ok_perm; [|apply H].
  - symmetry. apply Permutation_rev.
  - split; [constructor|]. split; intros x Hx; inversion Hx.
Qed.

Lemma filter_by_id_unique (chars : list Character.t) (i : Z) :
  NoDup (map Character.id chars) ->
  filter (fun c => Character.id c = i) chars
  = option_list (head (filter (fun c => Character.id c = i) chars)).
Proof.
  induction chars as [|c chars IH]; simpl; intros Hnd; [reflexivity|].
  apply NoDup_cons in Hnd as [Hc Hnd].
  rewrite filter_cons. destruct (decide (Character.id c = i)) as [Hi|Hi];
    [|now apply IH].
  simpl. f_equal.
  destruct (filter _ chars) as [|c' l] eqn:E; [reflexivity|]. exfalso.
  assert (Hc' : c' ∈ filter (fun c => Character.id c = i) chars) by (rewrite E; left).
  apply list_elem_of_filter in Hc' as [Hi' Hc']. apply Hc.
  rewrite Hi, <- Hi'. apply list_elem_of_fmap. eauto.
Qed.

Lemma stamps_of_turns db cid cname :
  NoDup (map Character.id (characters db)) ->
  map snd (filter (fun r : string * string * datetime => r.1 = (cid, cname))
                  (Main.joined_rows db))
  = map Conversation.timestamp (turns_of db cid cname).
Proof.
  intros Hnd. unfold Main.joined_rows, turns_of.
  induction (conversations db) as [|conv convs IH]; [reflexivity|].
  rewrite bind_cons, filter_app, map_app, IH, filter_cons. clear IH.
  rewrite (filter_by_id_unique _ _ Hnd). unfold character_get.
  destruct (head (filter _ (characters db))) as [character|]; simpl.
  - destruct (Conversation.chat_id conv) as [c|] eqn:Ec; simpl.
    + rewrite filter_cons. simpl.
      destruct (decide ((c, Character.name character) = (cid, cname))) as [Hk|Hk];
        destruct (decide _) as [Hd|Hd]; simpl; try reflexivity; exfalso.
      * apply Hd. injection Hk as -> ->. auto.
      * destruct Hd as [Hd1 Hd2]. apply Hk. congruence.
    + first [reflexivity
            | destruct (decide _) as [[Hd _]|_]; [discriminate | reflexivity]].
  - first [reflexivity
          | destruct (decide _) as [[_ Hd]|_]; [discriminate | reflexivity]].
Qed.

Lemma newest_first_total (a b : Main.summary) :
  Main.newest_first a b = true \/ Main.newest_first b a = true.
Proof. unfold Main.newest_first. destruct (dt_leb_total (Main.start_time a) (Main.start_time b)); auto. Qed.

Lemma newest_first_trans (a b c : Main.summary) :
  Main.newest_first a b = true -> Main.newest_first b c = true ->
  Main.newest_first a c = true.
Proof. unfold Main.newest_first. intros H1 H2. exact (dt_leb_trans _ _ _ H2 H1). Qed.

(** C5, as amended. The chat list has exactly one row per distinct pair of
    a non-null chat id and a character name among the stored turns (one row
    per chat id when all turns of a chat are with one character); the row's
    count is the number of stored turns of that chat id and character, its
    start time is the earliest of their timestamps, and the rows come with
    the latest start time first. *)
Theorem chat_list_summary db :
  NoDup (map Character.id (characters db)) ->
  let rows := Main.chat_query db in
  Main.get_all_chat_ids db
  = map (fun g => (Main.chat_id g, Main.character_name g,
                   strftime (Main.start_time g), Main.message_count g)) rows
  /\ NoDup (map gkey rows)
  /\ (forall cid cname, (cid, cname) ∈ map gkey rows <-> turns_of db cid cname <> [])
  /\ (forall g, g ∈ rows ->
        let turns := turns_of db (Main.chat_id g) (Main.character_name g) in
        Main.message_count g = Z.of_nat (length turns)
        /\ (exists t, t ∈ turns /\ Conversation.timestamp t = Main.start_time g)
        /\ forall t, t ∈ turns ->
             dt_leb (Main.start_time g) (Conversation.timestamp t) = true)
  /\ StronglySorted
       (fun a b => dt_leb (Main.start_time b) (Main.start_time a) = true) rows.
Proof.
  intros Hnd rows.
  destruct (group_by_ok (Main.joined_rows db)) as (Hk & Hrep & Hcov).
  assert (Hperm : rows ≡ₚ Main.group_by (Main.joined_rows db))
    by apply order_by_perm.
  assert (Hrows : forall g, g ∈ rows ->
            let turns := turns_of db (Main.chat_id g) (Main.character_name g) in
            Main.message_count g = Z.of_nat (length turns)
            /\ Main.start_time g ∈ map Conversation.timestamp turns
            /\ forall t, t ∈ map Conversation.timestamp turns ->
                 dt_leb (Main.start_time g) t = true).
  { intros g Hg. rewrite Hperm in Hg. specialize (Hrep g Hg).
    unfold represents in Hrep. unfold gkey in Hrep.
    rewrite (stamps_of_turns db _ _ Hnd) in Hrep.
    rewrite length_map in Hrep. exact Hrep. }
  split; [reflexivity|]. split; [now rewrite Hperm|]. split; [|split].
  - intros cid cname. rewrite Hperm. split.
    + intros Hin. apply list_elem_of_fmap in Hin as (g & Hg & Hin).
      rewrite <- Hperm in Hin. destruct (Hrows g Hin) as (_ & Hs & _).
      unfold gkey in Hg. injection Hg as -> ->.
      intros Hnil. simpl in Hs. rewrite Hnil in Hs. inversion Hs.
    + intros Hne.
      destruct (turns_of db cid cname) as [|t l] eqn:E; [congruence|].
      assert (Hs : Conversation.timestamp t
                   ∈ map Conversation.timestamp (turns_of db cid cname))
        by (rewrite E; left).
      rewrite <- (stamps_of_turns db _ _ Hnd) in Hs.
      apply list_elem_of_fmap in Hs as (r & _ & Hr).
      apply list_elem_of_filter in Hr as [Hkey Hr].
      rewrite <- Hkey. now apply Hcov.
  - intros g Hg. destruct (Hrows g Hg) as (Hc & Hs & Hle).
    split; [exact Hc|]. split.
    + apply list_elem_of_fmap in Hs as (t & Ht & Hin). eauto.
    + intros t Ht. apply Hle. apply list_elem_of_fmap. eauto.
  - apply (order_by_sorted Main.newest_first);
      [apply newest_first_total | apply newest_first_trans].
Qed.

Lemma chat_list_summary_witness :
  let rows := Main.chat_query db_mixed in
  Main.get_all_chat_ids db_mixed
  = map (fun g => (Main.chat_id g, Main.character_name g,
                   strftime (Main.start_time g), Main.message_count g)) rows
  /\ NoDup (map gkey rows)
  /\ (forall cid cname,
        (cid, cname) ∈ map gkey rows <-> turns_of db_mixed cid cname <> [])
  /\ (forall g, g ∈ rows ->
        let turns := turns_of db_mixed (Main.chat_id g) (Main.character_name g) in
        Main.message_count g = Z.of_nat (length turns)
        /\ (exists t, t ∈ turns /\ Conversation.timestamp t = Main.start_time g)
        /\ forall t, t ∈ turns ->
             dt_leb (Main.start_time g) (Conversation.timestamp t) = true)
  /\ StronglySorted
       (fun a b => dt_leb (Main.start_time b) (Main.start_time a) = true) rows.
Proof.
  apply (chat_list_summary db_mixed).
  vm_compute. repeat (constructor; [intros H; elem_cases H; discriminate|]).
  constructor.
Defined.

Lemma reach_run v w db character_name user_input user_id chat_id :
  reachable db -> uuid4 w <> "" ->
  reachable (db_after_chat
               (chat_with_character_in v w db character_name user_input user_id chat_id)
               db).
Proof.
  intros Hr Hu.
  destruct (chat_with_character_in v w db character_name user_input user_id chat_id)
    as [o|] eqn:E; simpl; [|exact Hr].
  exact (reach_chat _ _ _ _ _ _ _ _ Hr Hu E).
Qed.

Lemma db_mixed_reachable : reachable db_mixed.
Proof.
  apply (reach_run WithoutMemory); [|discriminate].
  apply (reach_run WithoutMemory); [|discriminate].
  apply reach_predefined, reach_empty.
Qed.

Example chat_list_mixed :
  Main.get_all_chat_ids db_mixed
  = [("s", "Professor Sage", "2024-03-09 07:06:30", 1);
     ("s", "Sarcastic Pirate", "2024-03-09 07:05:01", 1)].
Proof. reflexivity. Qed.

(** C5 as stated fails: a chat continued with another character gets one
    row per character, so two rows carry the same chat id, each counting
    one of its two turns. *)
Lemma chat_list_counterexample :
  ~ (forall db, reachable db ->
       NoDup (map (fun row : string * string * string * Z => row.1.1.1)
                  (Main.get_all_chat_ids db))
       /\ forall row, row ∈ Main.get_all_chat_ids db ->
            row.2 = Z.of_nat (length (filter
                      (fun conv => Conversation.chat_id conv = Some row.1.1.1)
                      (conversations db)))).
Proof.
  intros H. destruct (H db_mixed db_mixed_reachable) as [Hnd _].
  rewrite chat_list_mixed in Hnd. simpl in Hnd.
  apply NoDup_cons in Hnd as [Hn _]. apply Hn. left.
Qed.

(** * Further properties *)

(** ** Creating and looking up characters *)

Lemma lookup_insert_character_old db n d p n' c :
  character_by_name db n' = Some c ->
  character_by_name (insert_character db n d p) n' = Some c.
Proof.
  unfold character_by_name, insert_character. simpl. rewrite filter_app.
  destruct (filter _ (characters db)); [discriminate | auto].
Qed.

Lemma lookup_insert_character_new db n d p :
  character_by_name db n = None ->
  character_by_name (insert_character db n d p) n
  = Some {| Character.id := next_id (map Character.id (characters db));
            Character.name := n;
            Character.description := d;
            Character.prompt_template := p |}.
Proof.
  unfold character_by_name, insert_character. simpl. rewrite filter_app.
  intros H. apply head_None in H. rewrite H. simpl.
  rewrite filter_cons_True by reflexivity. reflexivity.
Qed.

Lemma lookup_insert_character_other db n d p n' :
  n' <> n ->
  character_by_name (insert_character db n d p) n' = character_by_name db n'.
Proof.
  intros Hne. unfold character_by_name, insert_character. simpl.
  rewrite filter_app, filter_cons_False by (simpl; congruence).
  rewrite filter_nil. now rewrite app_nil_r.
Qed.

(** X1. A character created under a name that is not stored is found again
    under that name with the description and template given, and is listed
    last by [get_existing_characters]. *)
Theorem add_character_then_lookup db name description prompt_template :
  (forall c, c ∈ characters db -> Character.name c <> name) ->
  (add_character db name description prompt_template).1
  = "Character '" +:+ name +:+ "' added successfully!" +:+ LF
    +:+ "Description: " +:+ description
  /\ (exists c,
        character_by_name (add_character db name description prompt_template).2 name
        = Some c
        /\ Character.name c = name
        /\ Character.description c = description
        /\ Character.prompt_template c = prompt_template)
  /\ get_existing_characters (add_character db name description prompt_template).2
     = get_existing_characters db ++ [(name, description)].
Proof.
  intros H. apply character_by_name_None in H.
  unfold add_character. rewrite H. simpl. split; [reflexivity|]. split.
  - eexists. split; [now apply lookup_insert_character_new|]. auto.
  - unfold get_existing_characters, insert_character. simpl. now rewrite map_app.
Qed.

Lemma add_character_then_lookup_witness :
  (add_character db_x "Y" "e" "You are Y.").1
  = "Character 'Y' added successfully!" +:+ LF +:+ "Description: e"
  /\ (exists c,
        character_by_name (add_character db_x "Y" "e" "You are Y.").2 "Y" = Some c
        /\ Character.name c = "Y"
        /\ Character.description c = "e"
        /\ Character.prompt_template c = "You are Y.")
  /\ get_existing_characters (add_character db_x "Y" "e" "You are Y.").2
     = get_existing_characters db_x ++ [("Y", "e")].
Proof.
  apply (add_character_then_lookup db_x "Y" "e" "You are Y.").
  intros c Hc. apply list_elem_of_singleton in Hc. subst c. discriminate.
Defined.

(** X2. Creating a character never changes what is stored already: the
    stored turns are untouched, every name that resolved before resolves to
    the same character, and a name other than the new one resolves exactly
    as before. *)
Theorem add_character_keeps_stored db name description prompt_template :
  conversations (add_character db name description prompt_template).2
  = conversations db
  /\ (forall n c,
        character_by_name db n = Some c ->
        character_by_name (add_character db name description prompt_template).2 n
        = Some c)
  /\ (forall n,
        n <> name ->
        character_by_name (add_character db name description prompt_template).2 n
        = character_by_name db n).
Proof.
  unfold add_character.
  destruct (character_by_name db name) eqn:E; simpl; [auto|].
  split; [reflexivity|]. split.
  - intros n c Hc. now apply lookup_insert_character_old.
  - intros n Hn. now apply lookup_insert_character_other.
Qed.

(** X3. Creating a character twice under one name stores it once: whatever
    the first call did, the second returns the "already exists" message and
    leaves the database of the first. *)
Theorem add_character_twice db name d1 p1 d2 p2 :
  add_character (add_character db name d1 p1).2 name d2 p2
  = ("Character '" +:+ name +:+ "' already exists!", (add_character db name d1 p1).2).
Proof.
  assert (H : exists c, character_by_name (add_character db name d1 p1).2 name = Some c).
  { unfold add_character. destruct (character_by_name db name) eqn:E; simpl.
    - eauto.
    - eexists. now apply lookup_insert_character_new. }
  destruct H as [c Hc]. unfold add_character at 1. now rewrite Hc.
Qed.

(** ** The predefined characters *)

Lemma seed_keeps_lookup (l : list (string * string * string)) db n c :
  character_by_name db n = Some c ->
  character_by_name
    (foldl (fun acc '(n, d, p) =>
              match character_by_name acc n with
              | Some _ => acc
              | None => insert_character acc n d p
              end) db l) n
  = Some c.
Proof.
  revert db. induction l as [|[[n' d'] p'] l IH]; intros db Hc; simpl; [exact Hc|].
  apply IH. destruct (character_by_name db n') eqn:E; [exact Hc|].
  now apply lookup_insert_character_old.
Qed.

Lemma seed_finds (l : list (string * string * string)) db n d p :
  (n, d, p) ∈ l ->
  is_Some (character_by_name
             (foldl (fun acc '(n, d, p) =>
                       match character_by_name acc n with
                       | Some _ => acc
                       | None => insert_character acc n d p
                       end) db l) n).
Proof.
  revert db. induction l as [|[[n' d'] p'] l IH]; intros db Hin; [inversion Hin|].
  apply elem_of_cons in Hin as [Heq|Hin]; [|now apply IH].
  injection Heq as <- <- <-. simpl.
  destruct (character_by_name db n) as [c|] eqn:E.
  - rewrite (seed_keeps_lookup l db n c E). eauto.
  - erewrite seed_keeps_lookup; [eauto|]. now apply lookup_insert_character_new.
Qed.

Lemma seed_nothing_to_do (l : list (string * string * string)) db :
  (forall n d p, (n, d, p) ∈ l -> is_Some (character_by_name db n)) ->
  foldl (fun acc '(n, d, p) =>
           match character_by_name acc n with
           | Some _ => acc
           | None => insert_character acc n d p
           end) db l = db.
Proof.
  induction l as [|[[n d] p] l IH]; intros H; simpl; [reflexivity|].
  destruct (H n d p) as [c Hc]; [left|]. rewrite Hc. apply IH.
  intros n' d' p' Hin. apply (H n' d' p'). now right.
Qed.

Lemma seed_keeps_conversations (l : list (string * string * string)) db :
  conversations
    (foldl (fun acc '(n, d, p) =>
              match character_by_name acc n with
              | Some _ => acc
              | None => insert_character acc n d p
              end) db l)
  = conversations db.
Proof.
  revert db. induction l as [|[[n d] p] l IH]; intros db; simpl; [reflexivity|].
  rewrite IH. now destruct (character_by_name db n).
Qed.

Lemma seed_fresh (l : list (string * string * string)) db :
  NoDup (map (fun x : string * string * string => x.1.1) l) ->
  (forall n d p, (n, d, p) ∈ l -> character_by_name db n = None) ->
  forall n d p, (n, d, p) ∈ l ->
    exists c,
      character_by_name
        (foldl (fun acc '(n, d, p) =>
                  match character_by_name acc n with
                  | Some _ => acc
                  | None => insert_character acc n d p
                  end) db l) n = Some c
      /\ Character.description c = d /\ Character.prompt_template c = p.
Proof.
  revert db. induction l as [|[[n0 d0] p0] l IH]; intros db Hnd Hnone n d p Hin;
    [inversion Hin|].
  simpl in Hnd. apply NoDup_cons in Hnd as [Hn0 Hnd]. simpl.
  rewrite (Hnone n0 d0 p0) by left.
  apply elem_of_cons in Hin as [Heq|Hin].
  - injection Heq as -> -> ->. eexists. split.
    + apply seed_keeps_lookup. apply lookup_insert_character_new.
      apply (Hnone n0 d0 p0). left.
    + auto.
  - apply IH; [exact Hnd| |exact Hin].
    intros n' d' p' Hin'. rewrite lookup_insert_character_other.
    + apply (Hnone n' d' p'). now right.
    + intros ->. apply Hn0. apply list_elem_of_fmap. exists (n0, d', p'). auto.
Qed.

(** X4. Seeding the predefined characters can be repeated at no cost: after
    it each predefined name resolves, characters stored before resolve as
    before (a stored character with a predefined name is not replaced), the
    stored turns are untouched, and a second run changes nothing. *)
Theorem add_predefined_characters_idempotent db :
  (forall n d p, (n, d, p) ∈ predefined_characters ->
     is_Some (character_by_name (add_predefined_characters db) n))
  /\ (forall n c, character_by_name db n = Some c ->
        character_by_name (add_predefined_characters db) n = Some c)
  /\ conversations (add_predefined_characters db) = conversations db
  /\ add_predefined_characters (add_predefined_characters db)
     = add_predefined_characters db.
Proof.
  split; [|split; [|split]].
  - intros n d p Hin. exact (seed_finds _ db n d p Hin).
  - intros n c Hc. exact (seed_keeps_lookup _ db n c Hc).
  - apply seed_keeps_conversations.
  - apply seed_nothing_to_do. intros n d p Hin. exact (seed_finds _ db n d p Hin).
Qed.

(** X5. On a database holding none of the predefined names, seeding stores
    each predefined character with the description and template listed for
    it. *)
Theorem add_predefined_characters_fresh db :
  (forall n d p, (n, d, p) ∈ predefined_characters -> character_by_name db n = None) ->
  forall n d p, (n, d, p) ∈ predefined_characters ->
    exists c,
      character_by_name (add_predefined_characters db) n = Some c
      /\ Character.description c = d /\ Character.prompt_template c = p.
Proof.
  apply seed_fresh. simpl.
  repeat (constructor; [intros H; elem_cases H; discriminate|]). constructor.
Qed.

Lemma add_predefined_characters_fresh_witness :
  Forall (fun '(n, d, p) =>
            exists c,
              character_by_name (add_predefined_characters db_x) n = Some c
              /\ Character.description c = d /\ Character.prompt_template c = p)
         predefined_characters.
Proof.
  apply Forall_forall. intros [[n d] p]. revert n d p.
  apply (add_predefined_characters_fresh db_x).
  intros n d p Hin. elem_cases Hin; injection Hin as -> -> ->; reflexivity.
Defined.

(** ** What a chat call does to the database *)

Lemma chat_outcome v w db character_name user_input user_id chat_id o :
  chat_with_character_in v w db character_name user_input user_id chat_id = Some o ->
  (character_by_name db character_name = None /\ o = character_not_found db)
  \/ exists character,
       character_by_name db character_name = Some character
       /\ session o = Some (resolve_chat_id w chat_id).1
       /\ ((db_after o = db
            /\ forall value,
                 generate (requests_post w
                   (payload (full_prompt_in v db character user_id user_input)))
                 <> Ok (Candidate value))
           \/ (db_after o
               = insert_conversation db (utcnow w) character user_input (reply o)
                   (resolve_chat_id w chat_id).1 user_id
               /\ generate (requests_post w
                     (payload (full_prompt_in v db character user_id user_input)))
                  = Ok (Candidate (JStr (reply o))))).
Proof.
  destruct (character_by_name db character_name) as [character|] eqn:Hc.
  - rewrite (chat_is_converse _ _ _ _ _ _ _ _ Hc). unfold converse.
    intros H. right. exists character. split; [reflexivity|].
    destruct (generate _) as [[value|m]|e]; [destruct value| |];
      try discriminate; injection H as <-; simpl;
      (split; [reflexivity|]); first [right; split; reflexivity | left; split;
        [reflexivity | discriminate]].
  - intros H. left. split; [reflexivity|].
    destruct v; simpl in H;
      unfold Main.chat_with_character, Main2.chat_with_character in H;
      rewrite Hc in H; congruence.
Qed.

(** X6. When the endpoint answers 200 with a first candidate whose text is
    a string, a chat call with a stored character and a user id within the
    64-bit range of its column returns that text and the chat id in force,
    and appends exactly one turn holding the character's key, the user's
    message, the text, the clock's reading, the chat id and the user's id;
    the characters are untouched. *)
Theorem chat_stores_one_turn v w db character_name user_input user_id chat_id
    character response body bot_response :
  in_int64 user_id ->
  character_by_name db character_name = Some character ->
  requests_post w (payload (full_prompt_in v db character user_id user_input))
  = Ok response ->
  Response.status_code response = 200 ->
  Response.json response = Ok body ->
  first_candidate_text body = Some (JStr bot_response) ->
  exists o,
    chat_with_character_in v w db character_name user_input user_id chat_id = Some o
    /\ reply o = bot_response
    /\ session o = Some (if falsy chat_id then uuid4 w else default "" chat_id)
    /\ characters (db_after o) = characters db
    /\ conversations (db_after o)
       = conversations db ++
         [ {| Conversation.id := next_id (map Conversation.id (conversations db));
              Conversation.character_id := Character.id character;
              Conversation.user_input := Some user_input;
              Conversation.bot_response := bot_response;
              Conversation.timestamp := utcnow w;
              Conversation.chat_id :=
                Some (if falsy chat_id then uuid4 w else default "" chat_id);
              Conversation.user_id := user_id |} ].
Proof.
  intros _ Hc Hp Hs Hj Ht.
  destruct (chat_success v w db character_name user_input user_id chat_id character
              response body bot_response Hc Hp Hs Hj Ht) as (o & Ho & Hr & Hse & Hdb).
  assert (Hid : (resolve_chat_id w chat_id).1
                = if falsy chat_id then uuid4 w else default "" chat_id)
    by (unfold resolve_chat_id; now destruct (falsy chat_id)).
  rewrite Hid in Hse, Hdb.
  exists o. split; [exact Ho|]. split; [exact Hr|]. split; [exact Hse|].
  rewrite Hdb. split; reflexivity.
Qed.

Lemma chat_stores_one_turn_witness :
  exists o,
    chat_with_character_in WithoutMemory (answering 200 "Ahoy!" t0) db_x
      "X" "hi" 1 None = Some o
    /\ reply o = "Ahoy!"
    /\ session o = Some "3f2b8c1e-0000-4000-8000-000000000001"
    /\ characters (db_after o) = characters db_x
    /\ conversations (db_after o)
       = conversations db_x ++
         [ {| Conversation.id := next_id (map Conversation.id (conversations db_x));
              Conversation.character_id := 1;
              Conversation.user_input := Some "hi";
              Conversation.bot_response := "Ahoy!";
              Conversation.timestamp := t0;
              Conversation.chat_id := Some "3f2b8c1e-0000-4000-8000-000000000001";
              Conversation.user_id := 1 |} ].
Proof.
  refine (chat_stores_one_turn WithoutMemory (answering 200 "Ahoy!" t0) db_x
            "X" "hi" 1 None _ _ (candidate_body "Ahoy!") "Ahoy!"
            _ eq_refl eq_refl eq_refl eq_refl eq_refl).
  unfold in_int64. lia.
Defined.

(** X7. A chat call in which the text extracted from the answer, if there
    is one, is a string never changes the stored characters and never alters
    or removes a stored turn: the turns afterwards are those before, followed
    by at most one new turn, which is the caller's, holds the message,
    carries the returned reply and belongs to the returned session.  The
    calls left out are exactly those answered with a text that is present
    but is not a string. *)
Theorem chat_only_appends v w db character_name user_input user_id chat_id :
  match chat_with_character_in v w db character_name user_input user_id chat_id with
  | Some o =>
      characters (db_after o) = characters db
      /\ (conversations (db_after o) = conversations db
          \/ exists turn,
               conversations (db_after o) = conversations db ++ [turn]
               /\ Conversation.user_id turn = user_id
               /\ Conversation.user_input turn = Some user_input
               /\ Conversation.bot_response turn = reply o
               /\ Conversation.chat_id turn = session o)
  | None =>
      exists character value,
        character_by_name db character_name = Some character
        /\ generate (requests_post w
                       (payload (full_prompt_in v db character user_id user_input)))
           = Ok (Candidate value)
        /\ forall s, value <> JStr s
  end.
Proof.
  destruct (chat_with_character_in v w db character_name user_input user_id chat_id)
    as [o|] eqn:Ho.
  - apply chat_outcome in Ho as [[_ ->]|(character & _ & Hs & [[-> _]|[-> _]])].
    + split; [reflexivity | now left].
    + split; [reflexivity | now left].
    + split; [reflexivity|]. right. eexists. split; [reflexivity|]. simpl.
      rewrite Hs. auto.
  - exact (chat_undescribed _ _ _ _ _ _ _ Ho).
Qed.

Lemma chat_only_appends_witness :
  characters db_ab = characters db_x
  /\ (conversations db_ab = conversations db_x
      \/ exists turn,
           conversations db_ab = conversations db_x ++ [turn]
           /\ Conversation.user_id turn = 1
           /\ Conversation.user_input turn = Some "a"
           /\ Conversation.bot_response turn = "b"
           /\ Conversation.chat_id turn = Some "s").
Proof.
  exact (chat_only_appends WithMemory (answering 200 "b" t0) db_x "X" "a" 1 (Some "s")).
Defined.

(** X8. Unless the endpoint answered with status exactly 200 and a body
    that carries a value at [candidates[0].content.parts[0].text], a chat call
    returns and leaves the database as it was: a turn is stored only for such
    an answer. *)
Theorem chat_stores_only_on_200 v w db character_name user_input user_id chat_id :
  (forall character response body value,
     character_by_name db character_name = Some character ->
     requests_post w (payload (full_prompt_in v db character user_id user_input))
     = Ok response ->
     Response.status_code response = 200 ->
     Response.json response = Ok body ->
     first_candidate_text body <> Some value) ->
  exists o,
    chat_with_character_in v w db character_name user_input user_id chat_id = Some o
    /\ db_after o = db.
Proof.
  intros Hno.
  destruct (character_by_name db character_name) as [character|] eqn:Hc.
  - rewrite (chat_is_converse _ _ _ _ _ _ _ _ Hc). unfold converse.
    destruct (generate _) as [[value|message]|e] eqn:Hg.
    + exfalso.
      apply generate_candidate in Hg as (response & body & Hp & Hs & Hj & Ht).
      exact (Hno character response body value eq_refl Hp Hs Hj Ht).
    + eexists. split; reflexivity.
    + eexists. split; reflexivity.
  - exists (character_not_found db). split; [|reflexivity].
    destruct v; simpl;
      unfold Main.chat_with_character, Main2.chat_with_character; now rewrite Hc.
Qed.

Lemma chat_stores_only_on_200_witness :
  exists o,
    chat_with_character_in WithMemory (answering 201 "Ahoy!" t0) db_x "X" "hi" 1
      (Some "s") = Some o
    /\ db_after o = db_x.
Proof.
  apply (chat_stores_only_on_200 WithMemory (answering 201 "Ahoy!" t0) db_x "X" "hi" 1
           (Some "s")).
  intros character response body value _ Hp Hs. simpl in Hp.
  injection Hp as <-. simpl in Hs. lia.
Defined.

(** ** Chat when a statement raises *)




(** ** A chat call followed by a query *)

Lemma insert_by_snoc {A : Type} (leb : A -> A -> bool) (y x : A) (s : list A) :
  leb y x = true -> insert_by leb y (s ++ [x]) = insert_by leb y s ++ [x].
Proof.
  intros H. induction s as [|z s IH]; simpl.
  - now rewrite H.
  - destruct (leb y z); [reflexivity|]. now rewrite IH.
Qed.

Lemma order_by_snoc {A : Type} (leb : A -> A -> bool) (l : list A) (x : A) :
  (forall y, y ∈ l -> leb y x = true) ->
  order_by leb (l ++ [x]) = order_by leb l ++ [x].
Proof.
  induction l as [|y l IH]; intros H; simpl; [reflexivity|].
  rewrite IH by (intros z Hz; apply H; now right).
  apply insert_by_snoc. apply H. left.
Qed.

Lemma transcript_snoc (turns : list Conversation.t) (conv : Conversation.t) :
  Main.transcript (turns ++ [conv]) = Main.transcript turns +:+ Main.render_turn conv.
Proof.
  induction turns as [|t turns IH]; simpl.
  - now rewrite app_empty_r.
  - rewrite IH. now rewrite app_assoc_s.
Qed.

Lemma str_join_snoc (sep : string) (l : list string) (x : string) :
  str_join sep (l ++ [x])
  = match l with [] => x | _ => str_join sep l +:+ sep +:+ x end.
Proof.
  induction l as [|a l IH]; [reflexivity|].
  destruct l as [|b l]; [reflexivity|].
  change (str_join sep ((a :: b :: l) ++ [x]))
    with (a +:+ sep +:+ str_join sep ((b :: l) ++ [x])).
  rewrite IH.
  change (str_join sep (a :: b :: l)) with (a +:+ sep +:+ str_join sep (b :: l)).
  now rewrite !app_assoc_s.
Qed.

Lemma conversations_by_chat_insert db now character user_input bot_response cid
    user_id :
  (forall t, t ∈ conversations db -> Conversation.chat_id t = Some cid ->
             dt_leb (Conversation.timestamp t) now = true) ->
  conversations_by_chat
    (insert_conversation db now character user_input bot_response cid user_id) cid
  = conversations_by_chat db cid
    ++ [ {| Conversation.id := next_id (map Conversation.id (conversations db));
            Conversation.character_id := Character.id character;
            Conversation.user_input := Some user_input;
            Conversation.bot_response := bot_response;
            Conversation.timestamp := now;
            Conversation.chat_id := Some cid;
            Conversation.user_id := user_id |} ]
  /\ forall other, other <> cid ->
       conversations_by_chat
         (insert_conversation db now character user_input bot_response cid user_id)
         other
       = conversations_by_chat db other.
Proof.
  intros Hclock. unfold conversations_by_chat, insert_conversation. simpl. split.
  - rewrite filter_app, filter_cons_True by reflexivity. rewrite filter_nil.
    apply order_by_snoc. intros t Ht. apply list_elem_of_filter in Ht as [Hc Ht].
    exact (Hclock t Ht Hc).
  - intros other Hne. rewrite filter_app, filter_cons_False by (simpl; congruence).
    rewrite filter_nil. now rewrite app_nil_r.
Qed.

Lemma conversations_by_user_insert db now character user_input bot_response cid
    user_id :
  (forall t, t ∈ conversations db -> Conversation.user_id t = user_id ->
             dt_leb (Conversation.timestamp t) now = true) ->
  conversations_by_user
    (insert_conversation db now character user_input bot_response cid user_id) user_id
  = conversations_by_user db user_id
    ++ [ {| Conversation.id := next_id (map Conversation.id (conversations db));
            Conversation.character_id := Character.id character;
            Conversation.user_input := Some user_input;
            Conversation.bot_response := bot_response;
            Conversation.timestamp := now;
            Conversation.chat_id := Some cid;
            Conversation.user_id := user_id |} ]
  /\ forall other, other <> user_id ->
       conversations_by_user
         (insert_conversation db now character user_input bot_response cid user_id)
         other
       = conversations_by_user db other.
Proof.
  intros Hclock. unfold conversations_by_user, insert_conversation. simpl. split.
  - rewrite filter_app, filter_cons_True by reflexivity. rewrite filter_nil.
    apply order_by_snoc. intros t Ht. apply list_elem_of_filter in Ht as [Hc Ht].
    exact (Hclock t Ht Hc).
  - intros other Hne. rewrite filter_app, filter_cons_False by (simpl; congruence).
    rewrite filter_nil. now rewrite app_nil_r.
Qed.

Lemma resolve_given w cid :
  cid <> "" -> resolve_chat_id w (Some cid) = (cid, []).
Proof.
  intros H. unfold resolve_chat_id, falsy. now rewrite bool_decide_eq_false_2.
Qed.

Lemma history_after_insert db now character user_input bot_response cid user_id other :
  conversations_by_chat
    (insert_conversation db now character user_input bot_response cid user_id) other
  = conversations_by_chat db other ->
  Main.get_chat_history
    (insert_conversation db now character user_input bot_response cid user_id)
    (Some other)
  = Main.get_chat_history db (Some other).
Proof.
  intros H. unfold Main.get_chat_history. destruct (falsy (Some other)); [reflexivity|].
  simpl default. rewrite H. reflexivity.
Qed.

(** X11. After a chat call in a given session has been answered, the
    history of that session is what it was (or, for a session without
    turns, the header) followed by the new turn: the clock's reading in
    brackets, the line "User: <message>", the line "Bot: <reply>" and an empty
    line; provided no stored turn of the session is later than the clock's
    reading and the user's id is within the 64-bit range of its column.  The
    histories of all other sessions are unchanged. *)
Theorem chat_then_history w db character_name user_input user_id cid character
    response body bot_response :
  in_int64 user_id ->
  cid <> "" ->
  character_by_name db character_name = Some character ->
  requests_post w (payload (Main.full_prompt (Character.prompt_template character)
                              user_input)) = Ok response ->
  Response.status_code response = 200 ->
  Response.json response = Ok body ->
  first_candidate_text body = Some (JStr bot_response) ->
  (forall t, t ∈ conversations db -> Conversation.chat_id t = Some cid ->
             dt_leb (Conversation.timestamp t) (utcnow w) = true) ->
  let turn :=
    {| Conversation.id := next_id (map Conversation.id (conversations db));
       Conversation.character_id := Character.id character;
       Conversation.user_input := Some user_input;
       Conversation.bot_response := bot_response;
       Conversation.timestamp := utcnow w;
       Conversation.chat_id := Some cid;
       Conversation.user_id := user_id |} in
  exists o,
    Main.chat_with_character w db character_name user_input user_id (Some cid) = Some o
    /\ Main.get_chat_history (db_after o) (Some cid)
       = match conversations_by_chat db cid with
         | [] =>
             "Chat History with "
             +:+ match character_get db (Character.id character) with
                 | Some shown => Character.name shown
                 | None => "Unknown Character"
                 end
             +:+ " (ID: " +:+ cid +:+ "):" +:+ LF +:+ LF
         | _ :: _ => Main.get_chat_history db (Some cid)
         end
         +:+ "[" +:+ strftime (utcnow w) +:+ "]" +:+ LF
         +:+ "User: " +:+ user_input +:+ LF
         +:+ "Bot: " +:+ bot_response +:+ LF +:+ LF
    /\ forall other, other <> cid ->
         Main.get_chat_history (db_after o) (Some other)
         = Main.get_chat_history db (Some other).
Proof.
  intros _ Hcid Hc Hp Hs Hj Ht Hclock turn.
  change (match character_get db (Character.id character) with
          | Some shown => Character.name shown
          | None => "Unknown Character"
          end)
    with (match character_get db (Conversation.character_id turn) with
          | Some shown => Character.name shown
          | None => "Unknown Character"
          end).
  change ("[" +:+ strftime (utcnow w) +:+ "]" +:+ LF
          +:+ "User: " +:+ user_input +:+ LF
          +:+ "Bot: " +:+ bot_response +:+ LF +:+ LF)
    with (Main.render_turn turn).
  fold (Main.history_header db turn cid).
  destruct (chat_success WithoutMemory w db character_name user_input user_id
              (Some cid) character response body bot_response Hc Hp Hs Hj Ht)
    as (o & Ho & _ & _ & Hdb).
  rewrite (resolve_given w cid Hcid) in Hdb. simpl in Hdb.
  exists o. split; [exact Ho|]. rewrite Hdb.
  destruct (conversations_by_chat_insert db (utcnow w) character user_input
              bot_response cid user_id Hclock) as [Hsame Hother].
  split.
  - unfold Main.get_chat_history, falsy.
    rewrite bool_decide_eq_false_2 by exact Hcid. simpl default.
    rewrite Hsame. fold turn.
    destruct (conversations_by_chat db cid) as [|first rest].
    + simpl. reflexivity.
    + change ((first :: rest) ++ [turn]) with (first :: (rest ++ [turn])).
      rewrite !foldl_render.
      change (first :: rest ++ [turn]) with ((first :: rest) ++ [turn]).
      rewrite transcript_snoc. rewrite app_assoc_s. reflexivity.
  - intros other Hne. apply history_after_insert. now apply Hother.
Qed.

Lemma chat_then_history_witness :
  exists o,
    Main.chat_with_character (answering 200 "d" t1) db_ab "X" "c" 1 (Some "s") = Some o
    /\ Main.get_chat_history (db_after o) (Some "s")
       = Main.get_chat_history db_ab (Some "s")
         +:+ "[2024-03-09 07:06:30]" +:+ LF +:+ "User: c" +:+ LF +:+ "Bot: d"
         +:+ LF +:+ LF
    /\ forall other, other <> "s" ->
         Main.get_chat_history (db_after o) (Some other)
         = Main.get_chat_history db_ab (Some other).
Proof.
  refine (chat_then_history (answering 200 "d" t1) db_ab "X" "c" 1 "s" _ _
            (candidate_body "d") "d" _ _ eq_refl eq_refl eq_refl eq_refl eq_refl _).
  - unfold in_int64. lia.
  - discriminate.
  - intros t Ht _. vm_compute in Ht. elem_cases Ht. reflexivity.
Defined.

Lemma context_prompt_snoc (turns : list Conversation.t) (turn : Conversation.t) :
  Main2.context_prompt (turns ++ [turn])
  = match turns with
    | [] => ""
    | previous => Main2.context_prompt previous +:+ " "
    end +:+ Main2.fragment turn.
Proof.
  unfold Main2.context_prompt. rewrite map_app.
  change (map Main2.fragment [turn]) with [Main2.fragment turn].
  rewrite str_join_snoc.
  destruct turns as [|first rest]; [reflexivity|].
  simpl map. now rewrite app_assoc_s.
Qed.

(** X12. In the variant with memory, after a chat call of a user has been
    answered, the next prompt built for that user, whatever the character,
    carries the previous context followed by the exchange just stored,
    provided no stored turn of the user is later than the clock's reading
    and the user's id is within the 64-bit range of its column; the context
    of every other user is unchanged. *)
Theorem chat_then_context w db character_name user_input user_id chat_id character
    response body bot_response :
  in_int64 user_id ->
  character_by_name db character_name = Some character ->
  requests_post w (payload (Main2.full_prompt (Character.prompt_template character)
                              (conversations_by_user db user_id) user_input))
  = Ok response ->
  Response.status_code response = 200 ->
  Response.json response = Ok body ->
  first_candidate_text body = Some (JStr bot_response) ->
  (forall t, t ∈ conversations db -> Conversation.user_id t = user_id ->
             dt_leb (Conversation.timestamp t) (utcnow w) = true) ->
  exists o,
    Main2.chat_with_character w db character_name user_input user_id chat_id = Some o
    /\ (forall template next_input,
          Main2.full_prompt template (conversations_by_user (db_after o) user_id)
            next_input
          = template +:+ LF
            +:+ match conversations_by_user db user_id with
                | [] => ""
                | previous => Main2.context_prompt previous +:+ " "
                end
            +:+ "User: " +:+ user_input +:+ LF +:+ "Bot: " +:+ bot_response +:+ LF
            +:+ "User: " +:+ next_input +:+ LF +:+ "Bot:")
    /\ forall other, other <> user_id ->
         conversations_by_user (db_after o) other = conversations_by_user db other.
Proof.
  intros _ Hc Hp Hs Hj Ht Hclock.
  destruct (chat_success WithMemory w db character_name user_input user_id
              chat_id character response body bot_response Hc Hp Hs Hj Ht)
    as (o & Ho & _ & _ & Hdb).
  exists o. split; [exact Ho|]. rewrite Hdb.
  destruct (conversations_by_user_insert db (utcnow w) character user_input
              bot_response (resolve_chat_id w chat_id).1 user_id Hclock)
    as [Hsame Hother].
  split; [|exact Hother].
  intros template next_input. rewrite Hsame.
  unfold Main2.full_prompt. rewrite context_prompt_snoc.
  unfold Main2.fragment at 1. simpl fmt_opt. simpl Conversation.bot_response.
  destruct (conversations_by_user db user_id); now rewrite !app_assoc_s.
Qed.

Lemma chat_then_context_witness :
  exists o,
    Main2.chat_with_character (answering 200 "d" t1) db_ab "X" "c" 1 None = Some o
    /\ (forall template next_input,
          Main2.full_prompt template (conversations_by_user (db_after o) 1) next_input
          = template +:+ LF
            +:+ match conversations_by_user db_ab 1 with
                | [] => ""
                | previous => Main2.context_prompt previous +:+ " "
                end
            +:+ "User: " +:+ "c" +:+ LF +:+ "Bot: " +:+ "d" +:+ LF
            +:+ "User: " +:+ next_input +:+ LF +:+ "Bot:")
    /\ forall other, other <> 1 ->
         conversations_by_user (db_after o) other = conversations_by_user db_ab other.
Proof.
  refine (chat_then_context (answering 200 "d" t1) db_ab "X" "c" 1 None _ _
            (candidate_body "d") "d" _ eq_refl eq_refl eq_refl eq_refl eq_refl _).
  - unfold in_int64. lia.
  - intros t Ht _. vm_compute in Ht. elem_cases Ht. reflexivity.
Defined.



(** ** The handlers of the chat tab *)

Lemma falsy_Some_nonempty (s : string) : s <> "" -> falsy (Some s) = false.
Proof. intros H. unfold falsy. now rewrite bool_decide_eq_false_2. Qed.

Lemma handle_chat_selected w db name message user_id chat_id h :
  name <> "" ->
  Main.handle_chat w db (Some name) message user_id chat_id = Some h ->
  exists o,
    Main.chat_with_character w db name message user_id chat_id = Some o
    /\ outputs h = (reply o, session o, session o)
    /\ db_then h = db_after o
    /\ did h = effects o.
Proof.
  intros Hn. unfold Main.handle_chat. rewrite (falsy_Some_nonempty _ Hn).
  simpl default.
  destruct (Main.chat_with_character w db name message user_id chat_id) as [o|];
    simpl; [|discriminate].
  intros H. injection H as <-. exists o. auto.
Qed.

(** X13. In Main.py a conversation keeps its chat id from message to
    message: when the handler is called without a chat id and then again
    with the chat id it returned, each time with a stored character, both
    calls return the identifier generated by the first, the second
    generates none, and every turn stored by the two calls carries that
    identifier; whether or not the endpoint answered. *)
Theorem handle_chat_keeps_chat_id w1 w2 db name1 name2 message1 message2 user_id
    h1 h2 :
  uuid4 w1 <> "" ->
  name1 <> "" -> name2 <> "" ->
  is_Some (character_by_name db name1) ->
  is_Some (character_by_name db name2) ->
  Main.handle_chat w1 db (Some name1) message1 user_id None = Some h1 ->
  Main.handle_chat w2 (db_then h1) (Some name2) message2 user_id (outputs h1).1.2
  = Some h2 ->
  (outputs h1).1.2 = Some (uuid4 w1)
  /\ (outputs h2).1.2 = Some (uuid4 w1)
  /\ (outputs h2).2 = Some (uuid4 w1)
  /\ (forall u, Uuid4 u ∉ did h2)
  /\ forall turn, turn ∈ conversations (db_then h2) ->
       turn ∈ conversations db \/ Conversation.chat_id turn = Some (uuid4 w1).
Proof.
  intros Hu Hn1 Hn2 [c1 Hc1] [c2 Hc2] H1 H2.
  apply (handle_chat_selected _ _ _ _ _ _ _ Hn1) in H1 as (o1 & Ho1 & Hout1 & Hdb1 & _).
  pose proof (chat_only_frame := chat_outcome WithoutMemory _ _ _ _ _ _ _ Ho1).
  destruct chat_only_frame as [[Hnone _]|(c1' & _ & Hs1 & Hdbs1)]; [congruence|].
  assert (Hstate1 : (outputs h1).1.2 = Some (uuid4 w1)).
  { rewrite Hout1. simpl. exact Hs1. }
  rewrite Hstate1 in H2.
  apply (handle_chat_selected _ _ _ _ _ _ _ Hn2) in H2 as (o2 & Ho2 & Hout2 & Hdb2 & Hdid2).
  assert (Hchars : characters (db_then h1) = characters db).
  { rewrite Hdb1. destruct Hdbs1 as [[-> _]|[-> _]]; reflexivity. }
  assert (Hc2' : character_by_name (db_then h1) name2 = Some c2).
  { unfold character_by_name in *. now rewrite Hchars. }
  pose proof (Hposts := chat_posts WithoutMemory _ _ _ _ _ _ _ _ Hc2' Ho2).
  apply (chat_outcome WithoutMemory) in Ho2
    as [[Hnone _]|(c2'' & _ & Hs2 & Hdbs2)]; [congruence|].
  rewrite (resolve_given w2 _ Hu) in Hs2, Hdbs2, Hposts. simpl in Hs2, Hdbs2, Hposts.
  split; [exact Hstate1|]. rewrite Hout2. simpl.
  split; [exact Hs2|]. split; [exact Hs2|]. split.
  - intros u Hin. rewrite Hdid2, Hposts in Hin.
    apply list_elem_of_singleton in Hin. discriminate.
  - intros turn Hin. rewrite Hdb2 in Hin.
    assert (Hfirst : forall t, t ∈ conversations (db_then h1) ->
              t ∈ conversations db \/ Conversation.chat_id t = Some (uuid4 w1)).
    { intros t Ht. rewrite Hdb1 in Ht.
      destruct Hdbs1 as [[Hd _]|[Hd _]]; rewrite Hd in Ht; [now left|].
      simpl in Ht. apply elem_of_app in Ht as [Ht|Ht]; [now left|].
      apply list_elem_of_singleton in Ht. subst t. now right. }
    destruct Hdbs2 as [[Hd _]|[Hd _]]; rewrite Hd in Hin; [now apply Hfirst|].
    simpl in Hin. apply elem_of_app in Hin as [Hin|Hin]; [now apply Hfirst|].
    apply list_elem_of_singleton in Hin. subst turn. now right.
Qed.

(** X14. The two ways the handler of Main.py answers without chatting
    differ in what they do to the chat id kept as state: with no character
    selected it is returned as it was; with a selected name that is not
    stored it is cleared.  Neither stores, generates or posts anything. *)
Theorem handle_chat_without_character w db character_name message user_id chat_id :
  (falsy character_name = true ->
   Main.handle_chat w db character_name message user_id chat_id
   = Some {| outputs := ("Please select a character first.", chat_id, chat_id);
             db_then := db; did := [] |})
  /\ (forall name,
        character_name = Some name -> name <> "" ->
        (forall c, c ∈ characters db -> Character.name c <> name) ->
        Main.handle_chat w db character_name message user_id chat_id
        = Some {| outputs := ("Character not found.", None, None);
                  db_then := db; did := [] |}).
Proof.
  split.
  - intros H. unfold Main.handle_chat. now rewrite H.
  - intros name -> Hn Hc. unfold Main.handle_chat.
    rewrite (falsy_Some_nonempty _ Hn). simpl default.
    apply character_by_name_None in Hc.
    unfold Main.chat_with_character. now rewrite Hc.
Qed.

Lemma handle_chat_keeps_chat_id_witness :
  exists h1 h2,
    Main.handle_chat (answering 503 "-" t0) db_x (Some "X") "hi" 1 None = Some h1
    /\ Main.handle_chat (answering_next 200 "Ahoy!" t1) (db_then h1) (Some "X")
         "hi again" 1 (outputs h1).1.2 = Some h2
    /\ (outputs h1).1.2 = Some (uuid4 (answering 503 "-" t0))
    /\ (outputs h2).1.2 = Some (uuid4 (answering 503 "-" t0))
    /\ (outputs h2).2 = Some (uuid4 (answering 503 "-" t0))
    /\ (forall u, Uuid4 u ∉ did h2)
    /\ forall turn, turn ∈ conversations (db_then h2) ->
         turn ∈ conversations db_x
         \/ Conversation.chat_id turn = Some (uuid4 (answering 503 "-" t0)).
Proof.
  eexists _, _. split; [reflexivity|]. split; [reflexivity|].
  apply (handle_chat_keeps_chat_id (answering 503 "-" t0)
           (answering_next 200 "Ahoy!" t1) db_x "X" "X" "hi" "hi again" 1);
    try discriminate; try reflexivity; eexists; reflexivity.
Defined.

Lemma send_outcome w db character_name user_input user_id chat_messages h :
  Main2.send w db character_name user_input user_id chat_messages = Some h ->
  exists o,
    Main2.chat_with_character w db character_name user_input user_id None = Some o
    /\ outputs h = (chat_messages ++ [("User", user_input); ("Bot", reply o)], session o)
    /\ db_then h = db_after o
    /\ did h = effects o.
Proof.
  unfold Main2.send.
  destruct (Main2.chat_with_character w db character_name user_input user_id None)
    as [o|]; simpl; [|discriminate].
  intros H. injection H as <-. exists o. auto.
Qed.

Lemma send_appends w db character_name user_input user_id chat_messages h :
  Main2.send w db character_name user_input user_id chat_messages = Some h ->
  characters (db_then h) = characters db
  /\ (exists reply_text,
        (outputs h).1 = chat_messages ++ [("User", user_input); ("Bot", reply_text)]
        /\ (conversations (db_then h) = conversations db
            \/ exists turn,
                 conversations (db_then h) = conversations db ++ [turn]
                 /\ Conversation.chat_id turn = Some (uuid4 w)
                 /\ (outputs h).2 = Some (uuid4 w)
                 /\ Conversation.user_input turn = Some user_input
                 /\ Conversation.bot_response turn = reply_text)).
Proof.
  intros H. apply send_outcome in H as (o & Ho & Hout & Hdb & _).
  rewrite Hout, Hdb. simpl.
  apply (chat_outcome WithMemory) in Ho
    as [[_ ->]|(character & _ & Hs & [[-> _]|[-> _]])]; simpl.
  - split; [reflexivity|]. eexists. split; [reflexivity | now left].
  - split; [reflexivity|]. eexists. split; [reflexivity | now left].
  - split; [reflexivity|]. eexists. split; [reflexivity|]. right.
    eexists. split; [reflexivity|]. simpl. rewrite Hs. auto.
Qed.

(** X15. In Main2.py a recording that is not understood ends the handler
    before anything else happens: the message list and the database are
    returned as they were, the chat id kept as state is cleared, and nothing
    is posted, even when a message was typed as well.  A video whose audio
    cannot be extracted ends it likewise, after a failure notice has been
    added to the message list. *)
Theorem handle_chat_media_failure m w db character_name user_input audio_file
    video_file user_id chat_messages :
  (forall audio,
     audio_file = Some audio -> audio <> "" ->
     (Main2.recognize_google m audio = Main2.UnknownValueError
      \/ exists msg, Main2.recognize_google m audio = Main2.RequestError msg) ->
     Main2.handle_chat m w db character_name user_input audio_file video_file
       user_id chat_messages
     = Ok (Some {| outputs := (chat_messages, None); db_then := db; did := [] |}))
  /\ (forall video,
        falsy audio_file = true ->
        video_file = Some video -> video <> "" ->
        Main2.write_audiofile m video = false ->
        Main2.handle_chat m w db character_name user_input audio_file video_file
          user_id chat_messages
        = Ok (Some {| outputs :=
                        (chat_messages ++
                         [("Bot", "Failed to extract audio from video. Please try a different file.")],
                         None);
                      db_then := db; did := [] |})).
Proof.
  split.
  - intros audio -> Ha Hr. unfold Main2.handle_chat.
    rewrite (falsy_Some_nonempty _ Ha). simpl default.
    unfold Main2.speech_to_text.
    destruct Hr as [->|[msg ->]]; reflexivity.
  - intros video Hf -> Hv Hw. unfold Main2.handle_chat. rewrite Hf.
    unfold mbind, result_bind. rewrite (falsy_Some_nonempty _ Hv). simpl default.
    unfold Main2.extract_audio_from_video. now rewrite Hw.
Qed.

Lemma speech_to_text_raises m file e :
  Main2.speech_to_text m file = Raise e ->
  Main2.recognize_google m file = Main2.ReadFault e.
Proof.
  unfold Main2.speech_to_text.
  destruct (Main2.recognize_google m file); try discriminate.
  now intros [= ->].
Qed.

(** X16. The handler of Main2.py never continues a session.  When it
    returns, the characters are untouched and at most one turn has been
    appended, and that turn carries the identifier generated during the call,
    which is also the chat id returned; the message list then ends with the
    user's text and the reply that were stored.  It raises only what the
    recogniser raises on reading a file.  The calls left out are exactly
    those in which the endpoint answers the prompt built from the final text
    with a text that is present but is not a string. *)
Theorem handle_chat_opens_session m w db character_name user_input audio_file
    video_file user_id chat_messages :
  match Main2.handle_chat m w db character_name user_input audio_file video_file
          user_id chat_messages with
  | Ok (Some h) =>
      characters (db_then h) = characters db
      /\ (conversations (db_then h) = conversations db
          \/ exists turn text earlier,
               conversations (db_then h) = conversations db ++ [turn]
               /\ Conversation.chat_id turn = Some (uuid4 w)
               /\ (outputs h).2 = Some (uuid4 w)
               /\ Conversation.user_input turn = Some text
               /\ (outputs h).1
                  = earlier ++ [("User", text); ("Bot", Conversation.bot_response turn)])
  | Ok None =>
      exists text character value,
        character_by_name db character_name = Some character
        /\ generate (requests_post w
                       (payload (Main2.full_prompt (Character.prompt_template character)
                                   (conversations_by_user db user_id) text)))
           = Ok (Candidate value)
        /\ forall s, value <> JStr s
  | Raise e => exists file, Main2.recognize_google m file = Main2.ReadFault e
  end.
Proof.
  assert (Hsend : forall text messages,
            match Ok (Main2.send w db character_name text user_id messages) with
            | Ok (Some h) =>
                characters (db_then h) = characters db
                /\ (conversations (db_then h) = conversations db
                    \/ exists turn text earlier,
                         conversations (db_then h) = conversations db ++ [turn]
                         /\ Conversation.chat_id turn = Some (uuid4 w)
                         /\ (outputs h).2 = Some (uuid4 w)
                         /\ Conversation.user_input turn = Some text
                         /\ (outputs h).1
                            = earlier
                              ++ [("User", text); ("Bot", Conversation.bot_response turn)])
            | Ok None =>
                exists text character value,
                  character_by_name db character_name = Some character
                  /\ generate (requests_post w
                                 (payload (Main2.full_prompt
                                             (Character.prompt_template character)
                                             (conversations_by_user db user_id) text)))
                     = Ok (Candidate value)
                  /\ forall s, value <> JStr s
            | Raise e => exists file, Main2.recognize_google m file = Main2.ReadFault e
            end).
  { intros text messages.
    destruct (Main2.send w db character_name text user_id messages) as [h|] eqn:H.
    - apply send_appends in H
        as (Hch & r & Hout & [Hsame|(turn & Hc & Hid & Hst & Hui & Hb)]).
      + split; [exact Hch | now left].
      + split; [exact Hch|]. right. exists turn, text, messages.
        rewrite Hb. auto.
    - unfold Main2.send in H.
      destruct (Main2.chat_with_character w db character_name text user_id None)
        as [o|] eqn:Ho; [discriminate|].
      destruct (chat_undescribed WithMemory w db character_name text user_id None Ho)
        as (character & value & Hc & Hg & Hv).
      exists text, character, value. auto. }
  unfold Main2.handle_chat. unfold mbind, result_bind.
  destruct (falsy audio_file).
  - destruct (falsy video_file); [apply Hsend|].
    destruct (Main2.extract_audio_from_video m (default "" video_file)) as [path|].
    + destruct (Main2.speech_to_text m path) as [extracted|e] eqn:Hx.
      * apply Hsend.
      * exists path. exact (speech_to_text_raises _ _ _ Hx).
    + simpl. split; [reflexivity | now left].
  - destruct (Main2.speech_to_text m (default "" audio_file)) as [[spoken|]|e] eqn:Hx.
    + destruct (falsy video_file); [apply Hsend|].
      destruct (Main2.extract_audio_from_video m (default "" video_file)) as [path|].
      * destruct (Main2.speech_to_text m path) as [extracted|e] eqn:Hy.
        -- apply Hsend.
        -- exists path. exact (speech_to_text_raises _ _ _ Hy).
      * simpl. split; [reflexivity | now left].
    + simpl. split; [reflexivity | now left].
    + exists (default "" audio_file). exact (speech_to_text_raises _ _ _ Hx).
Qed.

Lemma handle_chat_opens_session_witness :
  exists h,
    Main2.handle_chat deaf (answering 200 "d" t1) db_ab "X" "c" None None 1
      [("User", "a"); ("Bot", "b")] = Ok (Some h)
    /\ characters (db_then h) = characters db_ab
    /\ (conversations (db_then h) = conversations db_ab
        \/ exists turn text earlier,
             conversations (db_then h) = conversations db_ab ++ [turn]
             /\ Conversation.chat_id turn = Some (uuid4 (answering 200 "d" t1))
             /\ (outputs h).2 = Some (uuid4 (answering 200 "d" t1))
             /\ Conversation.user_input turn = Some text
             /\ (outputs h).1
                = earlier ++ [("User", text); ("Bot", Conversation.bot_response turn)]).
Proof.
  eexists. split; [reflexivity|].
  exact (handle_chat_opens_session deaf (answering 200 "d" t1) db_ab "X" "c" None None 1
           [("User", "a"); ("Bot", "b")]).
Defined.

(** ** The history of a user *)



(** ** The chat list against the stored turns *)

Lemma count_upsert r groups :
  foldr (fun g acc => Main.message_count g + acc) 0 (Main.upsert r groups)
  = foldr (fun g acc => Main.message_count g + acc) 0 groups + 1.
Proof.
  destruct r as [[cid cn] ts].
  induction groups as [|g rest IH]; simpl; [reflexivity|].
  destruct (bool_decide _); simpl; [lia|]. rewrite IH. lia.
Qed.

Lemma count_group_by rows :
  foldr (fun g acc => Main.message_count g + acc) 0 (Main.group_by rows)
  = Z.of_nat (length rows).
Proof.
  unfold Main.group_by.
  assert (H : forall groups,
             foldr (fun g acc => Main.message_count g + acc) 0
                   (foldl (fun gs r => Main.upsert r gs) groups rows)
             = foldr (fun g acc => Main.message_count g + acc) 0 groups
               + Z.of_nat (length rows)).
  { induction rows as [|r rows IH]; intros groups; simpl foldl.
    - simpl. lia.
    - rewrite IH, count_upsert. simpl length. lia. }
  rewrite H. reflexivity.
Qed.

Lemma count_perm (l l' : list Main.summary) :
  l ≡ₚ l' ->
  foldr (fun g acc => Main.message_count g + acc) 0 l
  = foldr (fun g acc => Main.message_count g + acc) 0 l'.
Proof. induction 1; simpl; lia. Qed.

Lemma joined_rows_length db :
  NoDup (map Character.id (characters db)) ->
  (forall conv, conv ∈ conversations db ->
     is_Some (character_get db (Conversation.character_id conv))) ->
  length (Main.joined_rows db)
  = length (filter (fun c => is_Some (Conversation.chat_id c)) (conversations db)).
Proof.
  intros Hnd. unfold Main.joined_rows. generalize (conversations db). intros convs.
  induction convs as [|conv convs IH]; intros Href; [reflexivity|].
  rewrite bind_cons, length_app, IH by (intros c Hc; apply Href; now right).
  rewrite (filter_by_id_unique _ _ Hnd).
  destruct (Href conv) as [character Hch]; [left|].
  unfold character_get in Hch. rewrite Hch. simpl option_list.
  destruct (Conversation.chat_id conv) as [cid|] eqn:E.
  - rewrite filter_cons_True by (rewrite E; eauto). reflexivity.
  - rewrite filter_cons_False by (rewrite E; intros [x Hx]; discriminate).
    reflexivity.
Qed.

Lemma joined_rows_elem db cid cname ts :
  (cid, cname, ts) ∈ Main.joined_rows db <->
  exists conv character,
    conv ∈ conversations db /\ character ∈ characters db
    /\ Character.id character = Conversation.character_id conv
    /\ Conversation.chat_id conv = Some cid
    /\ Character.name character = cname
    /\ Conversation.timestamp conv = ts.
Proof.
  unfold Main.joined_rows. rewrite list_elem_of_bind. split.
  - intros (conv & Hin & Hconv). apply list_elem_of_bind in Hin as (ch & Hin & Hch).
    apply list_elem_of_filter in Hch as [Hid Hch].
    destruct (Conversation.chat_id conv) as [c|] eqn:E; [|inversion Hin].
    apply list_elem_of_singleton in Hin. injection Hin as -> -> ->.
    exists conv, ch. repeat split; auto.
  - intros (conv & ch & Hconv & Hch & Hid & Hc & Hn & Ht).
    exists conv. split; [|exact Hconv]. apply list_elem_of_bind.
    exists ch. split; [|apply list_elem_of_filter; auto].
    rewrite Hc, Hn, Ht. apply list_elem_of_here.
Qed.

(** X18. With character keys unique and the character of every stored turn
    stored, the chat list accounts for each stored turn that has a chat id
    exactly once: the message counts of its rows add up to the number of
    these turns, and no row has a count below one. *)
Theorem chat_list_counts_every_turn db :
  NoDup (map Character.id (characters db)) ->
  (forall conv, conv ∈ conversations db ->
     is_Some (character_get db (Conversation.character_id conv))) ->
  foldr (fun row acc => row.2 + acc) 0 (Main.get_all_chat_ids db)
  = Z.of_nat (length (filter (fun c => is_Some (Conversation.chat_id c))
                             (conversations db)))
  /\ forall row, row ∈ Main.get_all_chat_ids db -> 1 <= row.2.
Proof.
  intros Hnd Href. split.
  - rewrite <- (joined_rows_length db Hnd Href), <- count_group_by.
    rewrite <- (count_perm _ _ (order_by_perm Main.newest_first
                                  (Main.group_by (Main.joined_rows db)))).
    unfold Main.get_all_chat_ids, Main.chat_query.
    induction (order_by _ _) as [|g l IH]; simpl; [reflexivity|]. now rewrite IH.
  - intros row Hrow. unfold Main.get_all_chat_ids in Hrow.
    apply list_elem_of_fmap in Hrow as (g & -> & Hg). simpl.
    apply order_by_elem_of in Hg.
    destruct (group_by_ok (Main.joined_rows db)) as (_ & Hrep & _).
    destruct (Hrep g Hg) as (Hc & Hs & _). rewrite Hc.
    destruct (map snd _); [inversion Hs | simpl; lia].
Qed.

Lemma chat_list_counts_every_turn_witness :
  foldr (fun row acc => row.2 + acc) 0 (Main.get_all_chat_ids db_mixed)
  = Z.of_nat (length (filter (fun c => is_Some (Conversation.chat_id c))
                             (conversations db_mixed)))
  /\ forall row, row ∈ Main.get_all_chat_ids db_mixed -> 1 <= row.2.
Proof.
  apply (chat_list_counts_every_turn db_mixed).
  - vm_compute. repeat (constructor; [intros H; elem_cases H; discriminate|]).
    constructor.
  - intros conv Hc. vm_compute in Hc. elem_cases Hc; vm_compute; eauto.
Defined.

(** X19. A chat id appears in the chat list exactly when a stored turn
    carries it (the character of every stored turn being stored), and the
    history of a listed chat id is never a sentinel: it is the header
    followed by the transcript of its turns (no stored chat id being empty). *)
Theorem chat_list_matches_history db cid :
  (forall conv, conv ∈ conversations db ->
     is_Some (character_get db (Conversation.character_id conv))) ->
  (forall conv, conv ∈ conversations db -> Conversation.chat_id conv <> Some "") ->
  (cid ∈ map (fun row : string * string * string * Z => row.1.1.1)
             (Main.get_all_chat_ids db)
   <-> exists conv, conv ∈ conversations db /\ Conversation.chat_id conv = Some cid)
  /\ (cid ∈ map (fun row : string * string * string * Z => row.1.1.1)
               (Main.get_all_chat_ids db) ->
      exists first rest,
        conversations_by_chat db cid = first :: rest
        /\ Main.get_chat_history db (Some cid)
           = Main.history_header db first cid +:+ Main.transcript (first :: rest)).
Proof.
  intros Href Hids.
  destruct (group_by_ok (Main.joined_rows db)) as (_ & Hrep & Hcov).
  assert (Hlisted :
    cid ∈ map (fun row : string * string * string * Z => row.1.1.1)
              (Main.get_all_chat_ids db)
    <-> exists conv, conv ∈ conversations db /\ Conversation.chat_id conv = Some cid).
  { unfold Main.get_all_chat_ids, Main.chat_query. rewrite map_map. simpl. split.
    - intros Hin. apply list_elem_of_fmap in Hin as (g & -> & Hg).
      apply order_by_elem_of in Hg. destruct (Hrep g Hg) as (_ & Hs & _).
      apply list_elem_of_fmap in Hs as ([[c n] ts] & _ & Hr).
      apply list_elem_of_filter in Hr as [Hk Hr]. simpl in Hk.
      apply joined_rows_elem in Hr as (conv & ch & Hconv & _ & _ & Hc & _ & _).
      exists conv. split; [exact Hconv|]. rewrite Hc.
      unfold gkey in Hk. injection Hk as -> _. reflexivity.
    - intros (conv & Hconv & Hc).
      destruct (Href conv Hconv) as [ch Hch].
      unfold character_get in Hch. apply head_Some_elem_of in Hch.
      apply list_elem_of_filter in Hch as [Hid Hch].
      assert (Hr : (cid, Character.name ch, Conversation.timestamp conv)
                   ∈ Main.joined_rows db).
      { apply joined_rows_elem. exists conv, ch. repeat split; auto. }
      apply Hcov in Hr. simpl in Hr.
      apply list_elem_of_fmap in Hr as (g & Hk & Hg).
      apply list_elem_of_fmap. exists g. split.
      + unfold gkey in Hk. now injection Hk as -> _.
      + now apply order_by_elem_of. }
  split; [exact Hlisted|].
  intros Hin. apply Hlisted in Hin as (conv & Hconv & Hc).
  assert (Hcid : cid <> "") by (intros ->; exact (Hids conv Hconv Hc)).
  pose proof (conversations_by_chat_perm db cid) as Hp.
  unfold Main.get_chat_history. rewrite (falsy_Some_nonempty _ Hcid). simpl default.
  destruct (conversations_by_chat db cid) as [|first rest].
  - exfalso. symmetry in Hp. apply Permutation_nil_r in Hp.
    assert (Hin : conv ∈ filter (fun c => Conversation.chat_id c = Some cid)
                            (conversations db))
      by (apply list_elem_of_filter; auto).
    rewrite Hp in Hin. inversion Hin.
  - exists first, rest. split; [reflexivity|].
    exact (foldl_render (Main.history_header db first cid) (first :: rest)).
Qed.

Lemma chat_list_matches_history_witness :
  ("s" ∈ map (fun row : string * string * string * Z => row.1.1.1)
             (Main.get_all_chat_ids db_abcd)
   <-> exists conv, conv ∈ conversations db_abcd /\ Conversation.chat_id conv = Some "s")
  /\ ("s" ∈ map (fun row : string * string * string * Z => row.1.1.1)
               (Main.get_all_chat_ids db_abcd) ->
      exists first rest,
        conversations_by_chat db_abcd "s" = first :: rest
        /\ Main.get_chat_history db_abcd (Some "s")
           = Main.history_header db_abcd first "s" +:+ Main.transcript (first :: rest)).
Proof.
  apply (chat_list_matches_history db_abcd "s").
  - intros conv Hc. vm_compute in Hc. elem_cases Hc; vm_compute; eauto.
  - intros conv Hc. vm_compute in Hc. elem_cases Hc; discriminate.
Defined.

Lemma filter_ext_in {A : Type} (P Q : A -> Prop) `{!forall x, Decision (P x)}
    `{!forall x, Decision (Q x)} (l : list A) :
  (forall x, x ∈ l -> P x <-> Q x) -> filter P l = filter Q l.
Proof.
  induction l as [|x l IH]; intros Hext; [reflexivity|].
  rewrite !filter_cons.
  rewrite IH by (intros y Hy; apply Hext; now right).
  destruct (decide (P x)) as [Hp|Hp], (decide (Q x)) as [Hq|Hq]; try reflexivity;
    exfalso; [apply Hq | apply Hp]; apply (Hext x); (left || assumption).
Qed.

Lemma filter_unique_key {A K : Type} `{EqDecision K} (f : A -> K) (k : K) (l : list A) :
  NoDup (map f l) -> k ∈ map f l ->
  exists g, filter (fun x => f x = k) l = [g] /\ g ∈ l /\ f g = k.
Proof.
  induction l as [|x l IH]; simpl; intros Hnd Hin; [inversion Hin|].
  apply NoDup_cons in Hnd as [Hx Hnd]. rewrite filter_cons.
  destruct (decide (f x = k)) as [Hk|Hk].
  - exists x. split; [|split; [left | exact Hk]]. f_equal.
    destruct (filter _ l) as [|y l'] eqn:E; [reflexivity|]. exfalso.
    assert (Hy : y ∈ filter (fun x => f x = k) l) by (rewrite E; left).
    apply list_elem_of_filter in Hy as [Hfy Hy]. apply Hx.
    rewrite Hk, <- Hfy. apply list_elem_of_fmap. eauto.
  - apply elem_of_cons in Hin as [Hin|Hin]; [congruence|].
    destruct (IH Hnd Hin) as (g & Hf & Hg & Hfg).
    exists g. split; [exact Hf|]. split; [now right | exact Hfg].
Qed.

Lemma chat_query_groups db :
  NoDup (map Character.id (characters db)) ->
  NoDup (map gkey (Main.chat_query db))
  /\ (forall cid cname,
        (cid, cname) ∈ map gkey (Main.chat_query db) <-> turns_of db cid cname <> [])
  /\ (forall g, g ∈ Main.chat_query db ->
        Main.message_count g
        = Z.of_nat (length (turns_of db (Main.chat_id g) (Main.character_name g)))
        /\ Main.start_time g
           ∈ map Conversation.timestamp
                 (turns_of db (Main.chat_id g) (Main.character_name g))
        /\ forall t,
             t ∈ map Conversation.timestamp
                     (turns_of db (Main.chat_id g) (Main.character_name g)) ->
             dt_leb (Main.start_time g) t = true).
Proof.
  intros Hnd.
  destruct (group_by_ok (Main.joined_rows db)) as (Hk & Hrep & Hcov).
  assert (Hperm : Main.chat_query db ≡ₚ Main.group_by (Main.joined_rows db))
    by apply order_by_perm.
  assert (Hrows : forall g, g ∈ Main.chat_query db ->
            Main.message_count g
            = Z.of_nat (length (turns_of db (Main.chat_id g) (Main.character_name g)))
            /\ Main.start_time g
               ∈ map Conversation.timestamp
                     (turns_of db (Main.chat_id g) (Main.character_name g))
            /\ forall t,
                 t ∈ map Conversation.timestamp
                         (turns_of db (Main.chat_id g) (Main.character_name g)) ->
                 dt_leb (Main.start_time g) t = true).
  { intros g Hg. rewrite Hperm in Hg. specialize (Hrep g Hg).
    unfold represents, gkey in Hrep.
    rewrite (stamps_of_turns db _ _ Hnd), length_map in Hrep. exact Hrep. }
  split; [now rewrite Hperm|]. split; [|exact Hrows].
  intros cid cname. split.
  - intros Hin. apply list_elem_of_fmap in Hin as (g & Hg & Hin).
    destruct (Hrows g Hin) as (_ & Hs & _).
    unfold gkey in Hg. injection Hg as -> ->.
    intros Hnil. rewrite Hnil in Hs. inversion Hs.
  - intros Hne. rewrite Hperm.
    destruct (turns_of db cid cname) as [|t l] eqn:E; [congruence|].
    assert (Hs : Conversation.timestamp t
                 ∈ map Conversation.timestamp (turns_of db cid cname))
      by (rewrite E; left).
    rewrite <- (stamps_of_turns db _ _ Hnd) in Hs.
    apply list_elem_of_fmap in Hs as (r & _ & Hr).
    apply list_elem_of_filter in Hr as [Hkey Hr].
    rewrite <- Hkey. now apply Hcov.
Qed.

(** X20. A chat whose stored turns are all with one character has exactly
    one row in the chat list (character keys being unique): the row names
    that character, counts all stored turns of the chat id, and starts at
    the earliest of their timestamps. *)
Theorem chat_list_one_row db cid cname :
  NoDup (map Character.id (characters db)) ->
  (forall t, t ∈ conversations db -> Conversation.chat_id t = Some cid ->
     Character.name <$> character_get db (Conversation.character_id t) = Some cname) ->
  (exists t, t ∈ conversations db /\ Conversation.chat_id t = Some cid) ->
  exists g,
    filter (fun g => Main.chat_id g = cid) (Main.chat_query db) = [g]
    /\ Main.character_name g = cname
    /\ Main.message_count g
       = Z.of_nat (length (filter (fun t => Conversation.chat_id t = Some cid)
                                  (conversations db)))
    /\ (exists t, t ∈ conversations db /\ Conversation.chat_id t = Some cid
                  /\ Conversation.timestamp t = Main.start_time g)
    /\ forall t, t ∈ conversations db -> Conversation.chat_id t = Some cid ->
         dt_leb (Main.start_time g) (Conversation.timestamp t) = true.
Proof.
  intros Hnd Hone (t0 & Ht0 & Hc0).
  destruct (chat_query_groups db Hnd) as (Hkeys & Hiff & Hrows).
  assert (Hturns : turns_of db cid cname
                   = filter (fun t => Conversation.chat_id t = Some cid)
                            (conversations db)).
  { unfold turns_of. apply filter_ext_in. intros t Ht. split; [tauto|].
    intros Hc. split; [exact Hc | now apply Hone]. }
  assert (Hin : (cid, cname) ∈ map gkey (Main.chat_query db)).
  { apply Hiff. rewrite Hturns. intros Hnil.
    assert (H0 : t0 ∈ filter (fun t => Conversation.chat_id t = Some cid)
                          (conversations db))
      by (apply list_elem_of_filter; auto).
    rewrite Hnil in H0. inversion H0. }
  destruct (filter_unique_key gkey (cid, cname) _ Hkeys Hin) as (g & Hf & Hg & Hk).
  assert (Hsame : filter (fun g => Main.chat_id g = cid) (Main.chat_query db)
                  = filter (fun g => gkey g = (cid, cname)) (Main.chat_query db)).
  { apply filter_ext_in. intros g' Hg'. unfold gkey. split.
    - intros Hc.
      assert (Hin' : (cid, Main.character_name g') ∈ map gkey (Main.chat_query db)).
      { apply list_elem_of_fmap. exists g'. unfold gkey. now rewrite Hc. }
      apply Hiff in Hin'.
      destruct (turns_of db cid (Main.character_name g')) as [|t l] eqn:E;
        [congruence|].
      assert (Ht : t ∈ turns_of db cid (Main.character_name g')) by (rewrite E; left).
      unfold turns_of in Ht. apply list_elem_of_filter in Ht as [[Hc1 Hc2] Ht].
      rewrite (Hone t Ht Hc1) in Hc2. injection Hc2 as ->. now rewrite Hc.
    - intros Hk'. now injection Hk'. }
  exists g. rewrite Hsame. split; [exact Hf|].
  unfold gkey in Hk. injection Hk as Hcid Hname.
  destruct (Hrows g Hg) as (Hcount & Hstart & Hle).
  rewrite Hcid, Hname, Hturns in Hcount, Hstart, Hle.
  split; [exact Hname|]. split; [exact Hcount|]. split.
  - apply list_elem_of_fmap in Hstart as (t & Ht & Hin').
    apply list_elem_of_filter in Hin' as [Hc Hin']. exists t. auto.
  - intros t Ht Hc. apply Hle. apply list_elem_of_fmap. exists t.
    split; [reflexivity|]. apply list_elem_of_filter. auto.
Qed.

Lemma chat_list_one_row_witness :
  exists g,
    filter (fun g => Main.chat_id g = "s") (Main.chat_query db_abcd) = [g]
    /\ Main.character_name g = "X"
    /\ Main.message_count g
       = Z.of_nat (length (filter (fun t => Conversation.chat_id t = Some "s")
                                  (conversations db_abcd)))
    /\ (exists t, t ∈ conversations db_abcd /\ Conversation.chat_id t = Some "s"
                  /\ Conversation.timestamp t = Main.start_time g)
    /\ forall t, t ∈ conversations db_abcd -> Conversation.chat_id t = Some "s" ->
         dt_leb (Main.start_time g) (Conversation.timestamp t) = true.
Proof.
  apply (chat_list_one_row db_abcd "s" "X").
  - vm_compute. repeat (constructor; [intros H; elem_cases H; discriminate|]).
    constructor.
  - intros t Ht _. vm_compute in Ht. elem_cases Ht; reflexivity.
  - eexists. split; [apply list_elem_of_here | reflexivity].
Defined.

(** ** What the program keeps true of its turns *)

(** X21. In every database the program can reach, each stored turn carries
    a non-empty chat id and refers to exactly one stored character. *)
Theorem reachable_turns_sound db :
  reachable db ->
  forall turn, turn ∈ conversations db ->
    (exists cid, Conversation.chat_id turn = Some cid /\ cid <> "")
    /\ exists character,
         filter (fun c => Character.id c = Conversation.character_id turn)
                (characters db) = [character].
Proof.
  intros Hr turn Hin.
  destruct (reachable_well_formed db Hr) as (_ & Hids & Hchat & Href).
  split; [now apply Hchat|].
  destruct (Href turn Hin) as [character Hch]. exists character.
  rewrite (filter_by_id_unique _ _ Hids). unfold character_get in Hch.
  now rewrite Hch.
Qed.

Lemma reachable_turns_sound_witness :
  Forall (fun turn =>
            (exists cid, Conversation.chat_id turn = Some cid /\ cid <> "")
            /\ exists character,
                 filter (fun c => Character.id c = Conversation.character_id turn)
                        (characters db_mixed) = [character])
         (conversations db_mixed).
Proof.
  apply Forall_forall. apply (reachable_turns_sound db_mixed).
  apply (reach_run WithoutMemory); [|discriminate].
  apply (reach_run WithoutMemory); [|discriminate].
  apply reach_predefined, reach_empty.
Defined.

(** ** Starting a new chat *)

(** X22. "Start New Chat" stores nothing, and the identifier it hands out
    is the one the next message is stored under: a handler call with a
    stored character and that identifier returns it again, generates none,
    and any turn it stores carries it. *)
Theorem start_new_chat_then_message w0 w db name message user_id h :
  uuid4 w0 <> "" ->
  name <> "" ->
  is_Some (character_by_name db name) ->
  Main.handle_chat w (db_then (Main.start_new_chat w0 db)) (Some name) message user_id
    (Some (outputs (Main.start_new_chat w0 db)).1) = Some h ->
  db_then (Main.start_new_chat w0 db) = db
  /\ (outputs h).1.2 = Some (uuid4 w0)
  /\ (forall u, Uuid4 u ∉ did h)
  /\ forall turn, turn ∈ conversations (db_then h) ->
       turn ∈ conversations db \/ Conversation.chat_id turn = Some (uuid4 w0).
Proof.
  intros Hu Hn [c Hc] H. simpl in H. split; [reflexivity|].
  apply (handle_chat_selected _ _ _ _ _ _ _ Hn) in H as (o & Ho & Hout & Hdb & Hdid).
  pose proof (Hposts := chat_posts WithoutMemory _ _ _ _ _ _ _ _ Hc Ho).
  apply (chat_outcome WithoutMemory) in Ho
    as [[Hnone _]|(c' & _ & Hs & Hdbs)]; [congruence|].
  rewrite (resolve_given w _ Hu) in Hs, Hdbs, Hposts. simpl in Hs, Hdbs, Hposts.
  rewrite Hout, Hdid, Hdb. simpl. split; [exact Hs|]. split.
  - intros u Hin. rewrite Hposts in Hin.
    apply list_elem_of_singleton in Hin. discriminate.
  - intros turn Hin.
    destruct Hdbs as [[Hd _]|[Hd _]]; rewrite Hd in Hin; [now left|].
    simpl in Hin. apply elem_of_app in Hin as [Hin|Hin]; [now left|].
    apply list_elem_of_singleton in Hin. subst turn. now right.
Qed.

Lemma start_new_chat_then_message_witness :
  exists h,
    Main.handle_chat (answering_next 200 "Ahoy!" t1)
      (db_then (Main.start_new_chat (answering 200 "-" t0) db_x)) (Some "X") "hi" 1
      (Some (outputs (Main.start_new_chat (answering 200 "-" t0) db_x)).1) = Some h
    /\ db_then (Main.start_new_chat (answering 200 "-" t0) db_x) = db_x
    /\ (outputs h).1.2 = Some (uuid4 (answering 200 "-" t0))
    /\ (forall u, Uuid4 u ∉ did h)
    /\ forall turn, turn ∈ conversations (db_then h) ->
         turn ∈ conversations db_x
         \/ Conversation.chat_id turn = Some (uuid4 (answering 200 "-" t0)).
Proof.
  eexists. split; [reflexivity|].
  apply (start_new_chat_then_message (answering 200 "-" t0)
           (answering_next 200 "Ahoy!" t1) db_x "X" "hi" 1);
    try discriminate; try reflexivity. eexists; reflexivity.
Defined.

Lemma handle_chat_without_character_witness :
  Main.handle_chat (answering 200 "Ahoy!" t0) db_x None "hi" 1 (Some "s")
  = Some {| outputs := ("Please select a character first.", Some "s", Some "s");
            db_then := db_x; did := [] |}
  /\ Main.handle_chat (answering 200 "Ahoy!" t0) db_x (Some "Nobody") "hi" 1 (Some "s")
     = Some {| outputs := ("Character not found.", None, None);
               db_then := db_x; did := [] |}.
Proof.
  split.
  - exact (proj1 (handle_chat_without_character (answering 200 "Ahoy!" t0) db_x None
                    "hi" 1 (Some "s")) eq_refl).
  - refine (proj2 (handle_chat_without_character (answering 200 "Ahoy!" t0) db_x
                     (Some "Nobody") "hi" 1 (Some "s")) "Nobody" eq_refl _ _).
    + discriminate.
    + intros c Hc. apply list_elem_of_singleton in Hc. subst c. discriminate.
Defined.

Lemma handle_chat_media_failure_witness :
  Main2.handle_chat deaf (answering 200 "Ahoy!" t0) db_x "X" "typed" (Some "memo.wav")
    None 1 [("User", "a"); ("Bot", "b")]
  = Ok (Some {| outputs := ([("User", "a"); ("Bot", "b")], None);
                db_then := db_x; did := [] |})
  /\ Main2.handle_chat deaf (answering 200 "Ahoy!" t0) db_x "X" "typed" None
       (Some "clip.mp4") 1 []
     = Ok (Some {| outputs :=
                     ([("Bot", "Failed to extract audio from video. Please try a different file.")],
                      None);
                   db_then := db_x; did := [] |}).
Proof.
  split.
  - refine (proj1 (handle_chat_media_failure deaf (answering 200 "Ahoy!" t0) db_x "X"
                     "typed" (Some "memo.wav") None 1 [("User", "a"); ("Bot", "b")])
                  "memo.wav" eq_refl _ _).
    + discriminate.
    + now left.
  - refine (proj2 (handle_chat_media_failure deaf (answering 200 "Ahoy!" t0) db_x "X"
                     "typed" None (Some "clip.mp4") 1 [])
                  "clip.mp4" eq_refl eq_refl _ eq_refl).
    discriminate.
Defined.
